(** * Infra control plane: authorization errors, access keys, version dispatch

    A shallow embedding of
      - internal/access/access.go            (HandleAuthErr, Can, ...)
      - internal/server/data/access_key.go   (access-key lifecycle)
      - internal/server/routes.go            (per-route version dispatch)
    together with the statements of the specification that concern them. *)

From Stdlib Require Import ZArith NArith Lia Bool List.
From Stdlib Require Import Strings.String Strings.Ascii Strings.Byte.
From stdpp Require Import base option list strings gmap.

Local Open Scope Z_scope.

(** ** Go error values

    A Go [error] is an interface value.  The dynamic types that occur in the
    embedded sources are [*errors.errorString] (from [errors.New] and from
    [fmt.Errorf] without [%w]), [*fmt.wrapError] (from [fmt.Errorf] with one
    [%w]) and the struct [access.AuthorizationError].  The first two are
    pointers, compared by address; each allocation is named by the package
    level variable that holds it or by the call site that makes it. *)
Definition addr := string.

Inductive error : Type :=
| errorString (p : addr) (s : string)
| wrapError (p : addr) (msg : string) (err : error)
| AuthorizationError (Resource Operation : string) (RequiredRoles : list string).

(** [err == target] on interface values whose dynamic type is comparable:
    same dynamic type and same pointer. *)
Definition iface_eq (a b : error) : bool :=
  match a, b with
  | errorString p _, errorString q _ => String.eqb p q
  | wrapError p _ _, wrapError q _ _ => String.eqb p q
  | _, _ => false
  end.

(** [reflect.TypeOf(e).Comparable()]: a struct with a slice field is not. *)
Definition Comparable (e : error) : bool :=
  match e with
  | AuthorizationError _ _ _ => false
  | _ => true
  end.

(** [errors.Unwrap(err)]: what a [%w] wraps, [None] being nil. *)
Definition Unwrap (e : error) : option error :=
  match e with
  | wrapError _ _ err => Some err
  | _ => None
  end.

(** ** internal/access/access.go *)

(** [var ErrNotAuthorized = errors.New("not authorized")] *)
Definition ErrNotAuthorized : error :=
  errorString "access.ErrNotAuthorized" "not authorized".

(** The loop of [AuthorizationError.Error]: [i] is the index of the head of
    [rest] in [e.RequiredRoles], [len] is [len(e.RequiredRoles)] and [roles]
    is the [strings.Builder] so far. *)
Fixpoint roles_loop (i len : Z) (rest : list string) (roles : string) : string :=
  match rest with
  | [] => roles
  | role :: rest' =>
      let roles := (roles +:+ role)%string in
      let roles :=
        if i + 1 =? len - 1 then (roles +:+ ", or ")%string
        else if negb (i + 1 =? len) then (roles +:+ ", ")%string
        else roles in
      roles_loop (i + 1) len rest' roles
  end.

Definition roles_text (RequiredRoles : list string) : string :=
  match RequiredRoles with
  | [r] => r
  | _ => roles_loop 0 (Z.of_nat (length RequiredRoles)) RequiredRoles ""
  end.

(** [func (e AuthorizationError) Error() string] *)
Definition AuthorizationError_Error (Resource Operation : string)
    (RequiredRoles : list string) : string :=
  ("you do not have permission to " +:+ Operation +:+ " " +:+ Resource
     +:+ ", requires role " +:+ roles_text RequiredRoles)%string.

(** [func (e AuthorizationError) Is(other error) bool] *)
Definition AuthorizationError_Is (other : error) : bool :=
  iface_eq other ErrNotAuthorized.

(** ** The [errors] and [fmt] functions the sources call *)

(** [err.Error()] *)
Definition Error (e : error) : string :=
  match e with
  | errorString _ s => s
  | wrapError _ msg _ => msg
  | AuthorizationError r o rs => AuthorizationError_Error r o rs
  end.

(** The optional method [Is(error) bool] of the dynamic type of [e]. *)
Definition Is_method (e : error) : option (error -> bool) :=
  match e with
  | AuthorizationError _ _ _ => Some AuthorizationError_Is
  | _ => None
  end.

(** The loop of [errors.Is] for a non-nil [target]. *)
Fixpoint Is_chain (err target : error) : bool :=
  if Comparable target && iface_eq err target then true
  else if from_option (fun m => m target) false (Is_method err) then true
  else match err with
       | wrapError _ _ inner => Is_chain inner target
       | _ => false
       end.

(** [errors.Is(err, target)], [None] being the nil error. *)
Definition errors_Is (err : option error) (target : error) : bool :=
  match err with
  | None => false
  | Some e => Is_chain e target
  end.

(** [fmt.Errorf(pre + "%w" + post, err)] allocated at [p]. *)
Definition Errorf_w (p : addr) (pre : string) (err : error) (post : string) : error :=
  wrapError p (pre +:+ Error err +:+ post)%string err.

(** [func HandleAuthErr(err error, resource, operation string, roles ...string) error] *)
Definition HandleAuthErr (err : option error) (resource operation : string)
    (roles : list string) : option error :=
  if negb (errors_Is err ErrNotAuthorized) then err
  else Some (AuthorizationError resource operation roles).

(** ** [strings] *)

(** [strings.Split(s, sep)] for a separator of one byte, the segment being
    read in [cur]. *)
Fixpoint split_on (sep : ascii) (s : string) (cur : string) : list string :=
  match s with
  | EmptyString => [cur]
  | String c s' =>
      if Ascii.eqb c sep then cur :: split_on sep s' ""
      else split_on sep s' (cur +:+ String c "")%string
  end.

Definition Split (s : string) (sep : ascii) : list string := split_on sep s "".

(** ** Semantic versions

    [github.com/Masterminds/semver/v3] is a third-party library: the router
    uses its parser and its comparison only, which are taken as an interface.
    [Compare] returns the sign of the comparison; that exchanging the two
    versions reverses it is all the router relies on. *)
Class SemVer (Version : Type) := {
  NewVersion : string -> error + Version;
  Compare : Version -> Version -> comparison;
  Compare_antisym : forall v o, Compare o v = CompOpp (Compare v o)
}.

Section SemVerOps.
Context {Version : Type} `{SemVer Version}.

(** [v.GreaterThan(o)] is [v.Compare(o) > 0], [v.LessThan(o)] is
    [v.Compare(o) < 0]. *)
Definition GreaterThan (v o : Version) : bool :=
  match Compare v o with Gt => true | _ => false end.

Definition LessThan (v o : Version) : bool :=
  match Compare v o with Lt => true | _ => false end.

End SemVerOps.

(** *** Release versions [MAJOR.MINOR.PATCH]

    An instance of the interface: versions without pre-release and build
    parts, three unsigned 64-bit segments compared in order; the parser
    accepts an optional leading [v] and one to three decimal segments. *)
Record ReleaseVersion := mkVersion { major : N; minor : N; patch : N }.

Definition digit_of (c : ascii) : option N :=
  let n := N_of_ascii c in
  if ((48 <=? n) && (n <=? 57))%N then Some (n - 48)%N else None.

Fixpoint parse_digits (s : string) (acc : N) : option N :=
  match s with
  | EmptyString => Some acc
  | String c s' =>
      match digit_of c with
      | Some d => parse_digits s' (10 * acc + d)%N
      | None => None
      end
  end.

(** [strconv.ParseUint(s, 10, 64)] *)
Definition ParseUint64 (s : string) : option N :=
  match s with
  | EmptyString => None
  | _ => match parse_digits s 0%N with
         | Some n => if (n <? 2 ^ 64)%N then Some n else None
         | None => None
         end
  end.

Definition ErrInvalidSemVer : error :=
  errorString "semver.ErrInvalidSemVer" "Invalid Semantic Version".

Definition release_NewVersion (s : string) : error + ReleaseVersion :=
  let s := match s with
           | String "v"%char s' => s'
           | _ => s
           end in
  match ParseUint64 <$> Split s "." with
  | [Some a] => inr (mkVersion a 0 0)
  | [Some a; Some b] => inr (mkVersion a b 0)
  | [Some a; Some b; Some c] => inr (mkVersion a b c)
  | _ => inl ErrInvalidSemVer
  end.

Definition compareSegment (v o : N) : comparison := (v ?= o)%N.

Definition release_Compare (v o : ReleaseVersion) : comparison :=
  match compareSegment (major v) (major o) with
  | Eq => match compareSegment (minor v) (minor o) with
          | Eq => compareSegment (patch v) (patch o)
          | d => d
          end
  | d => d
  end.

#[export] Instance release_semver : SemVer ReleaseVersion.
Proof.
  refine {| NewVersion := release_NewVersion; Compare := release_Compare |}.
  intros v o. unfold release_Compare, compareSegment.
  rewrite (N.compare_antisym (major v)), (N.compare_antisym (minor v)),
    (N.compare_antisym (patch v)).
  destruct (major v ?= major o)%N, (minor v ?= minor o)%N,
    (patch v ?= patch o)%N; reflexivity.
Defined.

(** ** internal/server/routes.go *)

(** Modelled from the spec: the sentinels of package [internal] are not
    among the sources; the error taxonomy has one [errors.New] value per
    kind.  [ErrBadRequest] is the kind of version-header problems and decode
    failures. *)
Definition ErrBadRequest : error := errorString "internal.ErrBadRequest" "bad request".

(** Modelled from the spec: the not-found kind (no matching identity, key or
    grant). *)
Definition ErrNotFound : error := errorString "internal.ErrNotFound" "record not found".

(** Modelled from the spec: the kind of a missing or invalid credential. *)
Definition ErrUnauthorized : error := errorString "internal.ErrUnauthorized" "unauthorized".

(** [net/http]: a request with its header map, and what a handler wrote. *)
Record Request := {
  Method : string;
  URLPath : string;
  Header : gmap string (list string);
  HasBody : bool;
  ContentLength : Z
}.

(** [api.Error], the body of an error response. *)
Record api_Error := { Code : Z; Message : string }.

(** What [c.JSON] serializes: an error body or the payload of a handler. *)
Inductive Body :=
| ErrorBody (e : api_Error)
| JSONBody (json : string).

(** The status code and the body written to the client. *)
Record Response := { Status : Z; Payload : Body }.

(** [gin.Context]: the request and the response written so far. *)
Record Context := { request : Request; written : option Response }.

(** [h.Get(key)] for a key in canonical form: the first value, or [""]. *)
Definition Header_Get (h : gmap string (list string)) (key : string) : string :=
  match h !! key with
  | Some (v :: _) => v
  | _ => ""
  end.

Definition StatusOK : Z := 200.
Definition StatusCreated : Z := 201.
Definition StatusNoContent : Z := 204.
Definition StatusBadRequest : Z := 400.
Definition StatusUnauthorized : Z := 401.
Definition StatusForbidden : Z := 403.
Definition StatusNotFound : Z := 404.
Definition StatusInternalServerError : Z := 500.

Definition MethodGet : string := "GET".
Definition MethodPost : string := "POST".
Definition MethodDelete : string := "DELETE".

(** [c.JSON(code, obj)] with [obj] already marshalled. *)
Definition c_JSON (c : Context) (code : Z) (body : Body) : Context :=
  {| request := request c; written := Some {| Status := code; Payload := body |} |}.

(** Modelled from the spec: [sendAPIError] is not among the sources.  It is
    the single place that maps the error taxonomy to a status code and a
    structured body: bad requests give 400 and name the condition, a missing
    or invalid credential 401, an authorization failure 403 with the roles
    that would have been sufficient, not-found 404; anything else is an
    internal error. *)
Definition sendAPIError (c : Context) (err : error) : Context :=
  let resp :=
    if errors_Is (Some err) ErrUnauthorized then
      {| Code := StatusUnauthorized; Message := "unauthorized" |}
    else if errors_Is (Some err) ErrNotAuthorized then
      {| Code := StatusForbidden; Message := Error err |}
    else if errors_Is (Some err) ErrNotFound then
      {| Code := StatusNotFound; Message := Error err |}
    else if errors_Is (Some err) ErrBadRequest then
      {| Code := StatusBadRequest; Message := Error err |}
    else {| Code := StatusInternalServerError; Message := "internal server error" |} in
  c_JSON c (Code resp) (ErrorBody resp).

(** [func defaultResponseCodeForMethod(method string) int] *)
Definition defaultResponseCodeForMethod (method : string) : Z :=
  if String.eqb method MethodPost then StatusCreated
  else if String.eqb method MethodDelete then StatusNoContent
  else StatusOK.

(** [type routeKey struct { method string; path string }], a map key. *)
Abbreviation routeKey := (string * string)%type.

(** A [func(c *gin.Context)]. *)
Definition ginHandler := Context -> Context.

Section Router.
Context {Version : Type} `{SemVer Version}.

Record routeVersion := { version : Version; handler : ginHandler }.

(** [func versionFromHeader]: the version a request declares, or an error. *)
Definition versionFromHeader (req : Request) : error + Version :=
  let headerVer := Header_Get (Header req) "Infra-Version" in
  let headerVer := if String.eqb headerVer "" then "0.0.0"%string else headerVer in
  if String.eqb headerVer "" then
    inl (Errorf_w "routes.go:194" "" ErrBadRequest ": Infra-Version header required")
  else
    match NewVersion headerVer with
    | inl err =>
        inl (Errorf_w "routes.go:198" "" ErrBadRequest
               (": invalid Infra-Version header: " +:+ Error err))
    | inr reqVer => inr reqVer
    end.

(** [func handlerForVersion]: the handler registered for a version, [None]
    being the nil function. *)
Fixpoint handlerForVersion (versions : list routeVersion) (reqVer : Version)
    : option ginHandler :=
  match versions with
  | [] => None
  | v :: rest =>
      if GreaterThan reqVer (version v) then handlerForVersion rest reqVer
      else Some (handler v)
  end.

(** The process-wide registry [*API], as far as the router reads it. *)
Record API := {
  versions : gmap routeKey (list routeVersion);
  openAPIDoc : list routeKey
}.

Section Wrap.
Context {Req Res : Type}.

(** What gin and the validator do with a request value of type [Req]:
    each step fills the value in or fails. *)
Record Binding := {
  new_Req : Req;
  ShouldBindUri : Context -> Req -> error + Req;
  ShouldBindQuery : Context -> Req -> error + Req;
  ShouldBindJSON : Context -> Req -> error + Req;
  validate_Struct : Req -> option error
}.

(** [type HandlerFunc[Req, Res any] func(c *gin.Context, req *Req) (Res, error)] *)
Definition HandlerFunc := Context -> Req -> error + Res.

Record route := {
  route_method : string;
  route_path : string;
  route_handler : HandlerFunc;
  omitFromDocs : bool
}.

Variable B : Binding.
Variable marshal : Res -> string.

(** [func bind(c *gin.Context, req interface{}) error], returning the
    request value it filled in. *)
Definition bind (c : Context) (req : Req) : error + Req :=
  match ShouldBindUri B c req with
  | inl err => inl (Errorf_w "routes.go:304" "" ErrBadRequest (": " +:+ Error err))
  | inr req =>
  match ShouldBindQuery B c req with
  | inl err => inl (Errorf_w "routes.go:308" "" ErrBadRequest (": " +:+ Error err))
  | inr req =>
  match
    (if HasBody (request c) && (0 <? ContentLength (request c))
     then ShouldBindJSON B c req else inr req)
  with
  | inl err => inl (Errorf_w "routes.go:313" "" ErrBadRequest (": " +:+ Error err))
  | inr req =>
  match validate_Struct B req with
  | Some err => inl err
  | None => inr req
  end end end end.

(** [func wrapHandler[Req, Res any](handler HandlerFunc[Req, Res]) func(c *gin.Context)] *)
Definition wrapHandler (handler : HandlerFunc) : ginHandler := fun c =>
  match bind c (new_Req B) with
  | inl err => sendAPIError c err
  | inr req =>
      match handler c req with
      | inl err => sendAPIError c err
      | inr resp =>
          c_JSON c (defaultResponseCodeForMethod (Method (request c)))
            (JSONBody (marshal resp))
      end
  end.

(** The closure [handler] that [add] registers for [route]; it reads the
    registry [a] when the request arrives. *)
Definition add_handler (route : route) (a : API) : ginHandler := fun c =>
  match versionFromHeader (request c) with
  | inl err => sendAPIError c err
  | inr reqVer =>
      let versions := default [] (versions a !! (route_method route, route_path route)) in
      match handlerForVersion versions reqVer with
      | Some versionedHandler => versionedHandler c
      | None =>
          (* the request is for the latest version *)
          wrapHandler (route_handler route) c
      end
  end.

End Wrap.

(** [*gin.RouterGroup]: its base path and the handlers registered so far. *)
Record RouterGroup := {
  BasePath : string;
  handlers : list (routeKey * (API -> ginHandler))
}.

Section Add.
Context {Req Res : Type}.

(** [path.Join] of the Go library. *)
Variable path_Join : string -> string -> string.

(** [func add[Req, Res any](a *API, r *gin.RouterGroup, route route[Req, Res])]:
    the registry and the router group after the call. *)
Definition add (B : @Binding Req) (marshal : Res -> string) (a : API)
    (r : RouterGroup) (rt : @route Req Res) : API * RouterGroup :=
  let rt := {| route_method := route_method rt;
               route_path := path_Join (BasePath r) (route_path rt);
               route_handler := route_handler rt;
               omitFromDocs := omitFromDocs rt |} in
  let a := if negb (omitFromDocs rt)
           then {| versions := versions a;
                   openAPIDoc := openAPIDoc a ++ [(route_method rt, route_path rt)] |}
           else a in
  (a, {| BasePath := BasePath r;
         handlers := handlers r ++
           [((route_method rt, route_path rt), add_handler B marshal rt)] |}).

End Add.


End Router.
Arguments routeVersion Version : clear implicits.
Arguments API Version : clear implicits.
Arguments RouterGroup Version : clear implicits.

(** ** Library functions used by the access-key store *)

(** *** [crypto/sha256]

    [sha256.Sum256] over bytes, words being naturals below [2^32]. *)
Module sha256.
Local Open Scope N_scope.

Definition mask32 : N := 0xffffffff.
Definition wrap32 (x : N) : N := N.land x mask32.
Definition plus32 (x y : N) : N := wrap32 (x + y).
Definition rotr (x k : N) : N :=
  N.lor (N.shiftr x k) (wrap32 (N.shiftl x (32 - k))).
Definition xor3 (a b c : N) : N := N.lxor a (N.lxor b c).

Definition choose (e f g : N) : N :=
  N.lxor (N.land e f) (N.land (N.lxor e mask32) g).
Definition majority (a b c : N) : N :=
  xor3 (N.land a b) (N.land a c) (N.land b c).
Definition Sigma0 (a : N) : N := xor3 (rotr a 2) (rotr a 13) (rotr a 22).
Definition Sigma1 (e : N) : N := xor3 (rotr e 6) (rotr e 11) (rotr e 25).
Definition sigma0 (x : N) : N := xor3 (rotr x 7) (rotr x 18) (N.shiftr x 3).
Definition sigma1 (x : N) : N := xor3 (rotr x 17) (rotr x 19) (N.shiftr x 10).

(** The constants of the algorithm are defined from the first primes: the
    first 32 bits of the fractional parts of their cube roots (one per
    round) and of their square roots (the initial state). *)
Definition is_prime (n : N) : bool :=
  (1 <? n) && forallb (fun d => negb (n mod N.of_nat d =? 0)) (seq 2 (N.to_nat n - 2)).

Definition primes (count : nat) : list N :=
  take count (filter (fun n => is_prime n = true) (N.of_nat <$> seq 2 310)).

(** The integer cube root, one bit at a time from bit [bits - 1] down. *)
Fixpoint cube_root_bits (bits : nat) (n root : N) : N :=
  match bits with
  | O => root
  | S bits' =>
      let candidate := root + 2 ^ N.of_nat bits' in
      cube_root_bits bits' n
        (if candidate * candidate * candidate <=? n then candidate else root)
  end.

Definition round_constants : list N :=
  Eval vm_compute in
    (fun p => wrap32 (cube_root_bits 36 (p * 2 ^ 96) 0)) <$> primes 64.

Definition initial_state : list N :=
  Eval vm_compute in
    (fun p => wrap32 (N.sqrt (p * 2 ^ 64))) <$> primes 8.

(** The message followed by the bit [1], zeros up to 56 modulo 64 bytes, and
    the bit length on eight bytes, most significant first. *)
Definition be_bytes (count : nat) (x : N) : list N :=
  (fun i => N.land (N.shiftr x (8 * N.of_nat (count - 1 - i))) 0xff) <$> seq 0 count.

Definition padded (msg : list N) : list N :=
  let len := length msg in
  let zeros := ((64 - (len + 9) mod 64) mod 64)%nat in
  msg ++ [0x80] ++ replicate zeros 0 ++ be_bytes 8 (8 * N.of_nat len).

Definition word_of (bs : list N) : N :=
  foldl (fun acc b => N.lor (N.shiftl acc 8) b) 0 bs.

Fixpoint chunks (size count : nat) (l : list N) : list (list N) :=
  match count with
  | O => []
  | S count' => take size l :: chunks size count' (drop size l)
  end.

(** The message schedule, most recent word first. *)
Fixpoint extend (steps : nat) (rev_w : list N) : list N :=
  match steps with
  | O => rev_w
  | S steps' =>
      let at_ k := nth k rev_w 0 in
      extend steps'
        (plus32 (plus32 (sigma1 (at_ 1%nat)) (at_ 6%nat))
                (plus32 (sigma0 (at_ 14%nat)) (at_ 15%nat)) :: rev_w)
  end.

Definition schedule (block : list N) : list N :=
  rev (extend 48 (rev (word_of <$> chunks 4 16 block))).

Definition round (st : list N) (kw : N * N) : list N :=
  match st with
  | [a; b; c; d; e; f; g; h] =>
      let t1 := plus32 (plus32 (plus32 h (Sigma1 e)) (choose e f g))
                       (plus32 (fst kw) (snd kw)) in
      let t2 := plus32 (Sigma0 a) (majority a b c) in
      [plus32 t1 t2; a; b; c; plus32 d t1; e; f; g]
  | _ => st
  end.

Definition compress (st block : list N) : list N :=
  zip_with plus32 st (foldl round st (zip round_constants (schedule block))).

Definition digest_words (msg : list N) : list N :=
  let p := padded msg in
  foldl compress initial_state (chunks 64 (length p / 64) p).

Definition byte_of_N (n : N) : byte :=
  default x00 (Byte.of_N (N.land n 0xff)).

(** [func Sum256(data []byte) [Size]byte] *)
Definition Sum256 (data : list byte) : list byte :=
  byte_of_N <$> concat (be_bytes 4 <$> digest_words (Byte.to_N <$> data)).

End sha256.

(** *** [crypto/subtle] *)

(** [func ConstantTimeByteEq(x, y uint8) int]:
    [int((uint32(x^y) - 1) >> 31)]. *)
Definition ConstantTimeByteEq (x y : N) : Z :=
  Z.shiftr ((Z.of_N (N.lxor x y) - 1) mod 2 ^ 32) 31.

(** The loop [v |= x[i] ^ y[i]] of [ConstantTimeCompare]. *)
Fixpoint ConstantTimeCompare_loop (x y : list byte) (v : N) : N :=
  match x, y with
  | a :: x', b :: y' =>
      ConstantTimeCompare_loop x' y' (N.lor v (N.lxor (Byte.to_N a) (Byte.to_N b)))
  | _, _ => v
  end.

(** [func ConstantTimeCompare(x, y []byte) int] *)
Definition ConstantTimeCompare (x y : list byte) : Z :=
  if negb (length x =? length y)%nat then 0
  else ConstantTimeByteEq (ConstantTimeCompare_loop x y 0) 0.

(** *** [strings] *)

Fixpoint HasPrefix (s prefix : string) {struct prefix} : bool :=
  match prefix, s with
  | EmptyString, _ => true
  | String a p', String b s' => Ascii.eqb a b && HasPrefix s' p'
  | String _ _, EmptyString => false
  end.

Fixpoint string_drop (n : nat) (s : string) : string :=
  match n, s with
  | S n', String _ s' => string_drop n' s'
  | _, _ => s
  end.

(** [func Cut(s, sep string) (before, after string, found bool)] *)
Fixpoint Cut (s sep : string) : string * string * bool :=
  if HasPrefix s sep then (""%string, string_drop (String.length sep) s, true)
  else match s with
       | EmptyString => (""%string, ""%string, false)
       | String c s' =>
           let '(before, after, found) := Cut s' sep in
           if found then (String c before, after, true)
           else (s, ""%string, false)
       end.

(** ** internal/server/data/access_key.go *)

(** [time.Time] as nanoseconds since the zero instant of the type, and
    [time.Duration] as nanoseconds. *)
Definition Time := Z.
Definition Duration := Z.
Definition Time_IsZero (t : Time) : bool := t =? 0.
Definition Time_After (t u : Time) : bool := u <? t.
Definition Time_Add (t : Time) (d : Duration) : Time := t + d.
Definition Hour : Duration := 3600 * 1000000000.

(** [uid.ID], a 64-bit identifier; zero is the unset one. *)
Definition uid_ID := Z.

(** [models.AccessKey]: the persisted fields are those [accessKeyTable]
    enumerates; [Secret] is the plaintext secret of a key being created. *)
Record AccessKey := {
  CreatedAt : Time;
  DeletedAt : option Time;
  ExpiresAt : Time;
  Extension : Duration;
  ExtensionDeadline : Time;
  ID : uid_ID;
  IssuedFor : uid_ID;
  KeyID : string;
  Name : string;
  OrganizationID : uid_ID;
  ProviderID : uid_ID;
  Scopes : list string;
  SecretChecksum : list byte;
  UpdatedAt : Time;
  Secret : string
}.

Definition set_CreatedAt (v : Time) (a : AccessKey) : AccessKey :=
  {| CreatedAt := v;
     DeletedAt := DeletedAt a;
     ExpiresAt := ExpiresAt a;
     Extension := Extension a;
     ExtensionDeadline := ExtensionDeadline a;
     ID := ID a;
     IssuedFor := IssuedFor a;
     KeyID := KeyID a;
     Name := Name a;
     OrganizationID := OrganizationID a;
     ProviderID := ProviderID a;
     Scopes := Scopes a;
     SecretChecksum := SecretChecksum a;
     UpdatedAt := UpdatedAt a;
     Secret := Secret a |}.

Definition set_DeletedAt (v : option Time) (a : AccessKey) : AccessKey :=
  {| CreatedAt := CreatedAt a;
     DeletedAt := v;
     ExpiresAt := ExpiresAt a;
     Extension := Extension a;
     ExtensionDeadline := ExtensionDeadline a;
     ID := ID a;
     IssuedFor := IssuedFor a;
     KeyID := KeyID a;
     Name := Name a;
     OrganizationID := OrganizationID a;
     ProviderID := ProviderID a;
     Scopes := Scopes a;
     SecretChecksum := SecretChecksum a;
     UpdatedAt := UpdatedAt a;
     Secret := Secret a |}.

Definition set_ExpiresAt (v : Time) (a : AccessKey) : AccessKey :=
  {| CreatedAt := CreatedAt a;
     DeletedAt := DeletedAt a;
     ExpiresAt := v;
     Extension := Extension a;
     ExtensionDeadline := ExtensionDeadline a;
     ID := ID a;
     IssuedFor := IssuedFor a;
     KeyID := KeyID a;
     Name := Name a;
     OrganizationID := OrganizationID a;
     ProviderID := ProviderID a;
     Scopes := Scopes a;
     SecretChecksum := SecretChecksum a;
     UpdatedAt := UpdatedAt a;
     Secret := Secret a |}.

Definition set_Extension (v : Duration) (a : AccessKey) : AccessKey :=
  {| CreatedAt := CreatedAt a;
     DeletedAt := DeletedAt a;
     ExpiresAt := ExpiresAt a;
     Extension := v;
     ExtensionDeadline := ExtensionDeadline a;
     ID := ID a;
     IssuedFor := IssuedFor a;
     KeyID := KeyID a;
     Name := Name a;
     OrganizationID := OrganizationID a;
     ProviderID := ProviderID a;
     Scopes := Scopes a;
     SecretChecksum := SecretChecksum a;
     UpdatedAt := UpdatedAt a;
     Secret := Secret a |}.

Definition set_ExtensionDeadline (v : Time) (a : AccessKey) : AccessKey :=
  {| CreatedAt := CreatedAt a;
     DeletedAt := DeletedAt a;
     ExpiresAt := ExpiresAt a;
     Extension := Extension a;
     ExtensionDeadline := v;
     ID := ID a;
     IssuedFor := IssuedFor a;
     KeyID := KeyID a;
     Name := Name a;
     OrganizationID := OrganizationID a;
     ProviderID := ProviderID a;
     Scopes := Scopes a;
     SecretChecksum := SecretChecksum a;
     UpdatedAt := UpdatedAt a;
     Secret := Secret a |}.

Definition set_ID (v : uid_ID) (a : AccessKey) : AccessKey :=
  {| CreatedAt := CreatedAt a;
     DeletedAt := DeletedAt a;
     ExpiresAt := ExpiresAt a;
     Extension := Extension a;
     ExtensionDeadline := ExtensionDeadline a;
     ID := v;
     IssuedFor := IssuedFor a;
     KeyID := KeyID a;
     Name := Name a;
     OrganizationID := OrganizationID a;
     ProviderID := ProviderID a;
     Scopes := Scopes a;
     SecretChecksum := SecretChecksum a;
     UpdatedAt := UpdatedAt a;
     Secret := Secret a |}.

Definition set_IssuedFor (v : uid_ID) (a : AccessKey) : AccessKey :=
  {| CreatedAt := CreatedAt a;
     DeletedAt := DeletedAt a;
     ExpiresAt := ExpiresAt a;
     Extension := Extension a;
     ExtensionDeadline := ExtensionDeadline a;
     ID := ID a;
     IssuedFor := v;
     KeyID := KeyID a;
     Name := Name a;
     OrganizationID := OrganizationID a;
     ProviderID := ProviderID a;
     Scopes := Scopes a;
     SecretChecksum := SecretChecksum a;
     UpdatedAt := UpdatedAt a;
     Secret := Secret a |}.

Definition set_KeyID (v : string) (a : AccessKey) : AccessKey :=
  {| CreatedAt := CreatedAt a;
     DeletedAt := DeletedAt a;
     ExpiresAt := ExpiresAt a;
     Extension := Extension a;
     ExtensionDeadline := ExtensionDeadline a;
     ID := ID a;
     IssuedFor := IssuedFor a;
     KeyID := v;
     Name := Name a;
     OrganizationID := OrganizationID a;
     ProviderID := ProviderID a;
     Scopes := Scopes a;
     SecretChecksum := SecretChecksum a;
     UpdatedAt := UpdatedAt a;
     Secret := Secret a |}.

Definition set_Name (v : string) (a : AccessKey) : AccessKey :=
  {| CreatedAt := CreatedAt a;
     DeletedAt := DeletedAt a;
     ExpiresAt := ExpiresAt a;
     Extension := Extension a;
     ExtensionDeadline := ExtensionDeadline a;
     ID := ID a;
     IssuedFor := IssuedFor a;
     KeyID := KeyID a;
     Name := v;
     OrganizationID := OrganizationID a;
     ProviderID := ProviderID a;
     Scopes := Scopes a;
     SecretChecksum := SecretChecksum a;
     UpdatedAt := UpdatedAt a;
     Secret := Secret a |}.

Definition set_OrganizationID (v : uid_ID) (a : AccessKey) : AccessKey :=
  {| CreatedAt := CreatedAt a;
     DeletedAt := DeletedAt a;
     ExpiresAt := ExpiresAt a;
     Extension := Extension a;
     ExtensionDeadline := ExtensionDeadline a;
     ID := ID a;
     IssuedFor := IssuedFor a;
     KeyID := KeyID a;
     Name := Name a;
     OrganizationID := v;
     ProviderID := ProviderID a;
     Scopes := Scopes a;
     SecretChecksum := SecretChecksum a;
     UpdatedAt := UpdatedAt a;
     Secret := Secret a |}.

Definition set_ProviderID (v : uid_ID) (a : AccessKey) : AccessKey :=
  {| CreatedAt := CreatedAt a;
     DeletedAt := DeletedAt a;
     ExpiresAt := ExpiresAt a;
     Extension := Extension a;
     ExtensionDeadline := ExtensionDeadline a;
     ID := ID a;
     IssuedFor := IssuedFor a;
     KeyID := KeyID a;
     Name := Name a;
     OrganizationID := OrganizationID a;
     ProviderID := v;
     Scopes := Scopes a;
     SecretChecksum := SecretChecksum a;
     UpdatedAt := UpdatedAt a;
     Secret := Secret a |}.

Definition set_Scopes (v : list string) (a : AccessKey) : AccessKey :=
  {| CreatedAt := CreatedAt a;
     DeletedAt := DeletedAt a;
     ExpiresAt := ExpiresAt a;
     Extension := Extension a;
     ExtensionDeadline := ExtensionDeadline a;
     ID := ID a;
     IssuedFor := IssuedFor a;
     KeyID := KeyID a;
     Name := Name a;
     OrganizationID := OrganizationID a;
     ProviderID := ProviderID a;
     Scopes := v;
     SecretChecksum := SecretChecksum a;
     UpdatedAt := UpdatedAt a;
     Secret := Secret a |}.

Definition set_SecretChecksum (v : list byte) (a : AccessKey) : AccessKey :=
  {| CreatedAt := CreatedAt a;
     DeletedAt := DeletedAt a;
     ExpiresAt := ExpiresAt a;
     Extension := Extension a;
     ExtensionDeadline := ExtensionDeadline a;
     ID := ID a;
     IssuedFor := IssuedFor a;
     KeyID := KeyID a;
     Name := Name a;
     OrganizationID := OrganizationID a;
     ProviderID := ProviderID a;
     Scopes := Scopes a;
     SecretChecksum := v;
     UpdatedAt := UpdatedAt a;
     Secret := Secret a |}.

Definition set_UpdatedAt (v : Time) (a : AccessKey) : AccessKey :=
  {| CreatedAt := CreatedAt a;
     DeletedAt := DeletedAt a;
     ExpiresAt := ExpiresAt a;
     Extension := Extension a;
     ExtensionDeadline := ExtensionDeadline a;
     ID := ID a;
     IssuedFor := IssuedFor a;
     KeyID := KeyID a;
     Name := Name a;
     OrganizationID := OrganizationID a;
     ProviderID := ProviderID a;
     Scopes := Scopes a;
     SecretChecksum := SecretChecksum a;
     UpdatedAt := v;
     Secret := Secret a |}.

Definition set_Secret (v : string) (a : AccessKey) : AccessKey :=
  {| CreatedAt := CreatedAt a;
     DeletedAt := DeletedAt a;
     ExpiresAt := ExpiresAt a;
     Extension := Extension a;
     ExtensionDeadline := ExtensionDeadline a;
     ID := ID a;
     IssuedFor := IssuedFor a;
     KeyID := KeyID a;
     Name := Name a;
     OrganizationID := OrganizationID a;
     ProviderID := ProviderID a;
     Scopes := Scopes a;
     SecretChecksum := SecretChecksum a;
     UpdatedAt := UpdatedAt a;
     Secret := v |}.

(** A value handed to or read from the store, as [any]. *)
Inductive any :=
| VTime (t : Time)
| VNullTime (t : option Time)
| VDuration (d : Duration)
| VID (i : uid_ID)
| VString (s : string)
| VStrings (l : list string)
| VBytes (b : list byte).

#[export] Instance byte_eq_dec : EqDecision byte := Byte.byte_eq_dec.

#[export] Instance any_eq_dec : EqDecision any.
Proof. unfold Time, Duration, uid_ID. solve_decision. Defined.

(** [func (a accessKeyTable) Table() string] *)
Definition Table : string := "access_keys".

(** [func (a accessKeyTable) Columns() []string] *)
Definition Columns : list string :=
  ["created_at"; "deleted_at"; "expires_at"; "extension"; "extension_deadline";
   "id"; "issued_for"; "key_id"; "name"; "organization_id"; "provider_id";
   "scopes"; "secret_checksum"; "updated_at"]%string.

(** [func (a accessKeyTable) Values() []any] *)
Definition Values (a : AccessKey) : list any :=
  [VTime (CreatedAt a); VNullTime (DeletedAt a); VTime (ExpiresAt a);
   VDuration (Extension a); VTime (ExtensionDeadline a); VID (ID a);
   VID (IssuedFor a); VString (KeyID a); VString (Name a);
   VID (OrganizationID a); VID (ProviderID a); VStrings (Scopes a);
   VBytes (SecretChecksum a); VTime (UpdatedAt a)].

(** Scanning a column value into the field a pointer designates. *)
Definition scan_Time (set : Time -> AccessKey -> AccessKey) (v : any) (a : AccessKey) :=
  match v with VTime t => Some (set t a) | _ => None end.
Definition scan_NullTime (set : option Time -> AccessKey -> AccessKey) (v : any) (a : AccessKey) :=
  match v with VNullTime t => Some (set t a) | _ => None end.
Definition scan_Duration (set : Duration -> AccessKey -> AccessKey) (v : any) (a : AccessKey) :=
  match v with VDuration d => Some (set d a) | _ => None end.
Definition scan_ID (set : uid_ID -> AccessKey -> AccessKey) (v : any) (a : AccessKey) :=
  match v with VID i => Some (set i a) | _ => None end.
Definition scan_String (set : string -> AccessKey -> AccessKey) (v : any) (a : AccessKey) :=
  match v with VString s => Some (set s a) | _ => None end.
Definition scan_Strings (set : list string -> AccessKey -> AccessKey) (v : any) (a : AccessKey) :=
  match v with VStrings l => Some (set l a) | _ => None end.
Definition scan_Bytes (set : list byte -> AccessKey -> AccessKey) (v : any) (a : AccessKey) :=
  match v with VBytes b => Some (set b a) | _ => None end.

(** [func (a *accessKeyTable) ScanFields() []any]: one destination per
    column, in the order of [Columns]. *)
Definition ScanFields : list (any -> AccessKey -> option AccessKey) :=
  [scan_Time set_CreatedAt; scan_NullTime set_DeletedAt; scan_Time set_ExpiresAt;
   scan_Duration set_Extension; scan_Time set_ExtensionDeadline; scan_ID set_ID;
   scan_ID set_IssuedFor; scan_String set_KeyID; scan_String set_Name;
   scan_ID set_OrganizationID; scan_ID set_ProviderID; scan_Strings set_Scopes;
   scan_Bytes set_SecretChecksum; scan_Time set_UpdatedAt].

(** [new(models.AccessKey)] *)
Definition new_AccessKey : AccessKey :=
  {| CreatedAt := 0; DeletedAt := None; ExpiresAt := 0; Extension := 0;
     ExtensionDeadline := 0; ID := 0; IssuedFor := 0; KeyID := "";
     Name := ""; OrganizationID := 0; ProviderID := 0; Scopes := [];
     SecretChecksum := []; UpdatedAt := 0; Secret := "" |}.

(** Reading one row into a fresh record: every column into its field. *)
Fixpoint scan_into (dests : list (any -> AccessKey -> option AccessKey))
    (row : list any) (a : AccessKey) : option AccessKey :=
  match dests, row with
  | [], [] => Some a
  | d :: dests', v :: row' =>
      match d v a with
      | Some a' => scan_into dests' row' a'
      | None => None
      end
  | _, _ => None
  end.

Definition Scan (row : list any) : option AccessKey :=
  scan_into ScanFields row new_AccessKey.

(** [var ErrAccessKeyExpired], [var ErrAccessKeyDeadlineExceeded] *)
Definition ErrAccessKeyExpired : error :=
  errorString "data.ErrAccessKeyExpired" "access key expired".
Definition ErrAccessKeyDeadlineExceeded : error :=
  Errorf_w "data.ErrAccessKeyDeadlineExceeded" "" ErrAccessKeyExpired
    ": extension deadline exceeded".

(** [func secretChecksum(secret string) []byte] *)
Definition secretChecksum (secret : string) : list byte :=
  sha256.Sum256 (list_byte_of_string secret).

(** *** The store

    The relational store is an external collaborator.  Its tables are kept
    as they are persisted: an access key is the row of its column values. *)
(** Modelled from the spec: [models.Identity] is not among the sources; a
    principal with a stable identifier and a name, in a tenant. *)
Record Identity := {
  identity_ID : uid_ID;
  identity_Name : string;
  identity_OrganizationID : uid_ID;
  identity_DeletedAt : option Time
}.

(** Modelled from the spec: [uid.PolymorphicID] is not among the sources; a
    tagged encoding of the kind of a principal and its identifier. *)
Inductive PolymorphicID :=
| PolyIdentity (id : uid_ID)
| PolyGroup (id : uid_ID).

#[export] Instance PolymorphicID_eq_dec : EqDecision PolymorphicID.
Proof. unfold uid_ID. solve_decision. Defined.

(** Modelled from the spec: [models.Grant] is not among the sources; an
    authorization fact (subject, privilege, resource) in a tenant, which a
    delete tombstones. *)
Record Grant := {
  grant_ID : uid_ID;
  Subject : PolymorphicID;
  Privilege : string;
  Resource : string;
  grant_OrganizationID : uid_ID;
  grant_DeletedAt : option Time
}.

(** The tables the embedded functions read and write, and the membership
    of users in groups. *)
Record DB := {
  access_keys : list (list any);
  identities : list Identity;
  grants : list Grant;
  identities_groups : list (uid_ID * uid_ID)
}.

(** A transaction handle: [tx.OrganizationID()] and the store it works on. *)
Record Txn := { OrganizationID_of : uid_ID; db : DB }.

Definition with_access_keys (rows : list (list any)) (tx : Txn) : Txn :=
  {| OrganizationID_of := OrganizationID_of tx;
     db := {| access_keys := rows;
              identities := identities (db tx);
              grants := grants (db tx);
              identities_groups := identities_groups (db tx) |} |}.

(** What a call reads from outside the program: the successive readings of
    [time.Now()] during the call, the random sources and [uid.New()]. *)
Record Env := {
  Now : nat -> Time;
  MathRandom : nat -> string;
  CryptoRandom : nat -> error + string;
  uid_New : uid_ID
}.

(** Calls that may fail and that update the store of their transaction. *)
Definition M (A : Type) : Type := Txn -> (error + A) * Txn.

Definition ret {A} (x : A) : M A := fun tx => (inr x, tx).
Definition fail {A} (err : error) : M A := fun tx => (inl err, tx).
Definition and_then {A B} (c : M A) (k : A -> M B) : M B := fun tx =>
  match c tx with
  | (inl err, tx') => (inl err, tx')
  | (inr x, tx') => k x tx'
  end.
Definition get_tx : M Txn := fun tx => (inr tx, tx).
Definition lift {A} (r : error + A) : M A := fun tx => (r, tx).

(** [if err != nil { return fmt.Errorf(..., err) }] around a call. *)
Definition wrapping {A} (f : error -> error) (c : M A) : M A := fun tx =>
  match c tx with
  | (inl err, tx') => (inl (f err), tx')
  | r => r
  end.

Notation "'let!' x ':=' c 'in' k" := (and_then c (fun x => k))
  (at level 10, x name, c at level 200, k at level 200, only parsing).

(** [type SelectorFunc]: a condition added to a query. *)
Definition SelectorFunc (A : Type) := A -> bool.

(** Modelled from the spec: the selector [ByKeyID] is not among the sources;
    it looks a key up by its key-id. *)
Definition ByKeyID (keyID : string) : SelectorFunc AccessKey :=
  fun a => String.eqb (KeyID a) keyID.

(** Modelled from the spec: the selector [ByID] is not among the sources; it
    looks an identity up by its ID. *)
Definition ByID (id : uid_ID) : SelectorFunc Identity :=
  fun i => identity_ID i =? id.

(** Modelled from the spec: [insert] is not among the sources.  It persists
    the record in the tenant of the transaction, under a generated ID when
    the record has none, as the row of its [Values]. *)
Definition insert (env : Env) (a : AccessKey) : M AccessKey := fun tx =>
  let a := set_OrganizationID (OrganizationID_of tx) a in
  let a := if ID a =? 0 then set_ID (uid_New env) a else a in
  (inr a, with_access_keys (access_keys (db tx) ++ [Values a]) tx).

(** The rows of the record with a given ID. *)
Definition has_ID (id : uid_ID) (row : list any) : bool :=
  match Scan row with
  | Some a => ID a =? id
  | None => false
  end.

(** Modelled from the spec: [save] is not among the sources.  It updates the
    record of that ID, and persists the record when there is none yet. *)
Definition save (a : AccessKey) : M unit := fun tx =>
  let rows := access_keys (db tx) in
  let rows :=
    if existsb (has_ID (ID a)) rows
    then (fun row => if has_ID (ID a) row then Values a else row) <$> rows
    else rows ++ [Values a] in
  (inr tt, with_access_keys rows tx).

(** Modelled from the spec: [GetIdentity] is not among the sources.  It
    selects a live identity of the tenant, or fails with the not-found
    error. *)
Definition GetIdentity (selectors : list (SelectorFunc Identity)) : M Identity :=
  fun tx =>
  match find (fun i => bool_decide (identity_DeletedAt i = None)
                       && (identity_OrganizationID i =? OrganizationID_of tx)
                       && forallb (fun sel => sel i) selectors)
             (identities (db tx)) with
  | Some i => (inr i, tx)
  | None => (inl ErrNotFound, tx)
  end.

(** [func GetAccessKey(tx GormTxn, selectors ...SelectorFunc)]: the first
    live record the selectors keep, in any tenant. *)
Definition GetAccessKey (selectors : list (SelectorFunc AccessKey)) : M AccessKey :=
  fun tx =>
  match find (fun a => bool_decide (DeletedAt a = None)
                       && forallb (fun sel => sel a) selectors)
             (omap Scan (access_keys (db tx))) with
  | Some result => (inr result, tx)
  | None => (inl ErrNotFound, tx)
  end.

(** [func SaveAccessKey(db GormTxn, key *models.AccessKey) error], returning
    the record as the call leaves it. *)
Definition SaveAccessKey (key : AccessKey) : M AccessKey :=
  let key :=
    if negb (String.eqb (Secret key) "")
    then set_SecretChecksum (secretChecksum (Secret key)) key
    else key in
  let! _ := save key in
  ret key.

(** Modelled from the spec: the query builder is not among the sources.  A
    query is the text of its clauses, in the order they are added, and
    their arguments. *)
Record queryBuilder := { clauses : list string; Args : list any }.

(** Modelled from the spec: [Query(stmt)] starts a query (not among the
    sources). *)
Definition Query (stmt : string) : queryBuilder :=
  {| clauses := [stmt]; Args := [] |}.

(** Modelled from the spec: [query.B(clause, args...)] adds a clause and its
    arguments (not among the sources). *)
Definition query_B (q : queryBuilder) (clause : string) (args : list any) : queryBuilder :=
  {| clauses := clauses q ++ [clause]; Args := Args q ++ args |}.

(** Modelled from the spec: [query.String()] is the text of the clauses,
    separated by spaces (not among the sources). *)
Definition query_String (q : queryBuilder) : string :=
  String.concat " " (clauses q).

(** The position of a column in a column list. *)
Fixpoint index_of (col : string) (cols : list string) : option nat :=
  match cols with
  | [] => None
  | c :: cols' => if String.eqb c col then Some O else S <$> index_of col cols'
  end.

(** The words of a statement. *)
Definition words (stmt : string) : list string :=
  filter (fun w => w <> ""%string) (Split stmt " ").

(** The words of the scoped soft delete on column [col]. *)
Definition soft_delete_statement (col : string) : list string :=
  ["UPDATE"; Table; "SET"; "deleted_at"; "="; "?"; "WHERE"; col; "="; "?";
   "AND"; "organization_id"; "="; "?"]%string.

(** The rows a scoped statement selects: column [i] holds [v] and the tenant
    column [o] holds [org]. *)
Definition selected (i o : nat) (v org : any) (row : list any) : bool :=
  bool_decide (row !! i = Some v) && bool_decide (row !! o = Some org).

(** Modelled from the spec: [tx.Exec] is not among the sources.  The store
    executes the scoped soft delete
    [UPDATE access_keys SET deleted_at = ? WHERE <column> = ? AND organization_id = ?]:
    the rows it selects get the timestamp, none is removed, and the number
    of selected rows is returned.  No other statement reaches it from the
    embedded sources. *)
Definition Exec (stmt : string) (args : list any) : M Z := fun tx =>
  let ws := words stmt in
  let col := default ""%string (ws !! 7%nat) in
  match args, index_of col Columns, index_of "deleted_at" Columns,
        index_of "organization_id" Columns with
  | [VTime now; v; org], Some i, Some d, Some o =>
      if bool_decide (ws = soft_delete_statement col) then
        let rows := access_keys (db tx) in
        (inr (Z.of_nat (length (filter (fun row => selected i o v org row) rows))),
         with_access_keys
           ((fun row => if selected i o v org row
                        then <[d := VNullTime (Some now)]> row else row) <$> rows)
           tx)
      else (inl (errorString "store" "unsupported statement"), tx)
  | _, _, _, _ => (inl (errorString "store" "unsupported statement"), tx)
  end.

(** [type DeleteAccessKeysOptions struct] *)
Record DeleteAccessKeysOptions := {
  opt_ByID : uid_ID;
  opt_ByUserID : uid_ID;
  opt_ByProviderID : uid_ID
}.

(** [func DeleteAccessKeys(tx WriteTxn, opts DeleteAccessKeysOptions) error]:
    the query it builds, or the error of the [default] case. *)
Definition DeleteAccessKeys_query (env : Env) (organizationID : uid_ID)
    (opts : DeleteAccessKeysOptions) : error + queryBuilder :=
  let query := Query "UPDATE access_keys" in
  let query := query_B query "SET deleted_at = ? WHERE" [VTime (Now env 0)] in
  let selector :=
    if negb (opt_ByID opts =? 0) then
      inr (query_B query "id = ?" [VID (opt_ByID opts)])
    else if negb (opt_ByUserID opts =? 0) then
      inr (query_B query "issued_for = ?" [VID (opt_ByUserID opts)])
    else if negb (opt_ByProviderID opts =? 0) then
      inr (query_B query "provider_id = ?" [VID (opt_ByProviderID opts)])
    else inl (errorString "access_key.go:153" "DeleteAccessKeys requires an ID to delete") in
  match selector with
  | inl err => inl err
  | inr query => inr (query_B query "AND organization_id = ?" [VID organizationID])
  end.

Definition DeleteAccessKeys (env : Env) (opts : DeleteAccessKeysOptions) : M unit :=
  let! tx := get_tx in
  let! query := lift (DeleteAccessKeys_query env (OrganizationID_of tx) opts) in
  let! _ := Exec (query_String query) (Args query) in
  ret tt.

Section AccessKeys.

(** [models.AccessKeyKeyLength], [models.AccessKeySecretLength] and
    [uid.ID.String], declared outside the sources. *)
Variable AccessKeyKeyLength AccessKeySecretLength : nat.
Variable ID_String : uid_ID -> string.

(** [func CreateAccessKey(db GormTxn, accessKey *models.AccessKey) (body string, err error)],
    returning the record as the call leaves it besides the body. *)
Definition CreateAccessKey (env : Env) (accessKey : AccessKey) : M (string * AccessKey) :=
  if IssuedFor accessKey =? 0 then
    fail (errorString "access_key.go:50" "issusedFor is required")
  else if ProviderID accessKey =? 0 then
    fail (errorString "access_key.go:52" "providerID is required")
  else
  let accessKey :=
    if String.eqb (KeyID accessKey) ""
    then set_KeyID (MathRandom env AccessKeyKeyLength) accessKey
    else accessKey in
  if negb (String.length (KeyID accessKey) =? AccessKeyKeyLength)%nat then
    fail (errorString "access_key.go:60" "invalid key length")
  else
  let! accessKey :=
    (if String.eqb (Secret accessKey) "" then
       let! secret := lift (CryptoRandom env AccessKeySecretLength) in
       ret (set_Secret secret accessKey)
     else ret accessKey) in
  if negb (String.length (Secret accessKey) =? AccessKeySecretLength)%nat then
    fail (errorString "access_key.go:73" "invalid secret length")
  else
  let accessKey := set_SecretChecksum (secretChecksum (Secret accessKey)) accessKey in
  let accessKey :=
    if Time_IsZero (ExpiresAt accessKey)
    then set_ExpiresAt (Time_Add (Now env 0) (Hour * 12)) accessKey
    else accessKey in
  let! accessKey :=
    (if String.eqb (Name accessKey) "" then
       (* set a default name for look-up and CLI usage *)
       let accessKey :=
         if ID accessKey =? 0 then set_ID (uid_New env) accessKey else accessKey in
       let! identityIssuedFor :=
         wrapping (fun err => Errorf_w "access_key.go:90" "key name from identity: " err "")
           (GetIdentity [ByID (IssuedFor accessKey)]) in
       ret (set_Name (identity_Name identityIssuedFor +:+ "-"
                        +:+ ID_String (ID accessKey))%string accessKey)
     else ret accessKey) in
  let! accessKey := insert env accessKey in
  ret ((KeyID accessKey +:+ "." +:+ Secret accessKey)%string, accessKey).

(** [func ValidateAccessKey(tx GormTxn, authnKey string)] *)
Definition ValidateAccessKey (env : Env) (authnKey : string) : M AccessKey :=
  let '(keyID, secret, ok) := Cut authnKey "." in
  if negb ok then
    fail (errorString "access_key.go:164" "invalid access key format")
  else
  let! t :=
    wrapping (fun err => Errorf_w "access_key.go:169" "" err
                ": could not get access key from database, it may not exist")
      (GetAccessKey [ByKeyID keyID]) in
  let sum := secretChecksum secret in
  if negb (ConstantTimeCompare (SecretChecksum t) sum =? 1) then
    fail (errorString "access_key.go:175" "access key invalid secret")
  else if Time_After (Now env 0) (ExpiresAt t) then
    fail ErrAccessKeyExpired
  else if negb (Time_IsZero (ExtensionDeadline t)) then
    if Time_After (Now env 1) (ExtensionDeadline t) then
      fail ErrAccessKeyDeadlineExceeded
    else
      let t := set_ExtensionDeadline (Time_Add (Now env 2) (Extension t)) t in
      SaveAccessKey t
  else ret t.

End AccessKeys.

(** ** internal/access/access.go: grants *)

(** [data.Pagination], with the fields of the store's pagination. *)
Record Pagination := { Page : Z; Limit : Z }.

(** [data.ListGrantsOptions], with the fields [Can] fills in. *)

Record ListGrantsOptions := {
  opt_Pagination : option Pagination;
  BySubject : PolymorphicID;
  ByPrivileges : list string;
  ByResource : string;
  IncludeInheritedFromGroups : bool
}.

(** Modelled from the spec: the groups a subject belongs to, those of a
    user and none of a group (part of [data.ListGrants]). *)
Definition groups_of (d : DB) (subject : PolymorphicID) : list PolymorphicID :=
  match subject with
  | PolyIdentity u =>
      (fun ug => PolyGroup (snd ug)) <$>
        filter (fun ug => fst ug = u) (identities_groups d)
  | PolyGroup _ => []
  end.

(** Modelled from the spec: the condition of the query of [data.ListGrants]
    on one grant. *)
Definition grant_matches (tx : Txn) (opts : ListGrantsOptions) (g : Grant) : bool :=
  bool_decide (grant_DeletedAt g = None)
  && (grant_OrganizationID g =? OrganizationID_of tx)
  && bool_decide (Subject g ∈
        BySubject opts ::
          (if IncludeInheritedFromGroups opts then groups_of (db tx) (BySubject opts)
           else []))
  && String.eqb (Resource g) (ByResource opts)
  && bool_decide (Privilege g ∈ ByPrivileges opts).

(** Modelled from the spec: the pagination primitive of the store, here its
    limit; a limit of zero is no limit. *)
Definition paginate {A} (p : option Pagination) (l : list A) : list A :=
  match p with
  | Some p => if 0 <? Limit p then take (Z.to_nat (Limit p)) l else l
  | None => l
  end.

(** Modelled from the spec: [data.ListGrants] is not among the sources.  It
    lists the non-deleted grants of the tenant whose subject is the given
    subject or, when inherited lookup is requested, a group the subject
    belongs to, whose resource equals the given resource and whose
    privilege is any of the given privileges, up to the limit of the
    pagination. *)
Definition ListGrants (opts : ListGrantsOptions) : M (list Grant) := fun tx =>
  (inr (paginate (opt_Pagination opts)
          (filter (fun g => grant_matches tx opts g = true) (grants (db tx)))), tx).

(** The options [Can] passes to [data.ListGrants]. *)
Definition Can_options (identity : PolymorphicID) (resource : string)
    (privileges : list string) : ListGrantsOptions :=
  {| opt_Pagination := Some {| Page := 0; Limit := 1 |};
     BySubject := identity;
     ByPrivileges := privileges;
     ByResource := resource;
     IncludeInheritedFromGroups := true |}.

(** [func Can(db data.GormTxn, identity uid.PolymorphicID, resource string, privileges ...string) (bool, error)] *)
Definition Can (identity : PolymorphicID) (resource : string)
    (privileges : list string) : M bool :=
  let! grants :=
    wrapping (fun err => Errorf_w "access.go:112" "has grants: " err "")
      (ListGrants (Can_options identity resource privileges)) in
  ret (0 <? Z.of_nat (length grants)).

(** ** Notions used in the statements *)

(** [reaches err target]: unwrapping [err] some number of times gives
    [target]. *)
Inductive reaches : error -> error -> Prop :=
| reaches_here e : reaches e e
| reaches_wrap p msg inner target :
    reaches inner target -> reaches (wrapError p msg inner) target.

(** The text the loop writes: a comma after every role but the last, and
    [or] before the last. *)
Fixpoint joined (roles : list string) : string :=
  match roles with
  | [] => ""
  | [r] => r
  | [r; l] => r +:+ ", or " +:+ l
  | r :: rest => r +:+ ", " +:+ joined rest
  end.

(** [strings.ContainsRune(s, r)] for a rune of one byte. *)
Fixpoint ContainsRune (s : string) (r : ascii) : bool :=
  match s with
  | EmptyString => false
  | String c s' => Ascii.eqb c r || ContainsRune s' r
  end.



(** The query [DeleteAccessKeys] builds for one selector. *)
Definition delete_query (now : Time) (selector : string) (id org : uid_ID) : queryBuilder :=
  {| clauses := ["UPDATE access_keys"; "SET deleted_at = ? WHERE"; selector;
                 "AND organization_id = ?"]%string;
     Args := [VTime now; VID id; VID org] |}.

(** The grants that authorize [subject] for one of [privileges] on
    [resource] in the tenant of [tx]. *)
Definition authorizes (tx : Txn) (subject : PolymorphicID) (resource : string)
    (privileges : list string) (g : Grant) : Prop :=
  In g (grants (db tx))
  /\ grant_DeletedAt g = None
  /\ grant_OrganizationID g = OrganizationID_of tx
  /\ (Subject g = subject
      \/ exists u gid, subject = PolyIdentity u
                       /\ In (u, gid) (identities_groups (db tx))
                       /\ Subject g = PolyGroup gid)
  /\ Resource g = resource
  /\ In (Privilege g) privileges.

(** ** Example data

    The access-key listing route with release versions, and a tenant with
    one user, one group and one key. *)

Definition listing_binding : @Binding unit :=
  {| new_Req := tt;
     ShouldBindUri := fun _ r => inr r;
     ShouldBindQuery := fun _ r => inr r;
     ShouldBindJSON := fun _ r => inr r;
     validate_Struct := fun _ => None |}.

Definition listing_route : @route unit string :=
  {| route_method := MethodGet;
     route_path := "/api/access-keys";
     route_handler := fun _ _ => inr "{count:1}"%string;
     omitFromDocs := false |}.

Definition legacy (shape : string) : ginHandler :=
  fun c => c_JSON c StatusOK (JSONBody shape).

Definition listing_versions : list (routeVersion ReleaseVersion) :=
  [ {| version := mkVersion 0 10 0; handler := legacy "v0.10.0" |};
    {| version := mkVersion 0 12 0; handler := legacy "v0.12.0" |} ].

Definition listing_api : API ReleaseVersion :=
  {| versions := {[ (MethodGet, "/api/access-keys"%string) := listing_versions ]};
     openAPIDoc := [] |}.


Definition listing_request (headers : gmap string (list string)) : Context :=
  {| request := {| Method := MethodGet; URLPath := "/api/access-keys";
                   Header := headers; HasBody := false; ContentLength := 0 |};
     written := None |}.

Definition declaring (v : string) : gmap string (list string) :=
  {[ "Infra-Version"%string := [v] ]}.

Definition sample_env (t : Time) : Env :=
  {| Now := fun _ => t;
     MathRandom := fun _ => "k3yIDk3yID"%string;
     CryptoRandom := fun _ => inr "abcdefghijklmnopqrstuvwx"%string;
     uid_New := 41 |}.

Definition sample_ID_String (id : uid_ID) : string := "4jgmnx8Js8A".

Definition sample_tx : Txn :=
  {| OrganizationID_of := 1;
     db := {| access_keys := [];
              identities := [ {| identity_ID := 7;
                                 identity_Name := "usera@example.com";
                                 identity_OrganizationID := 1;
                                 identity_DeletedAt := None |} ];
              grants := [ {| grant_ID := 11; Subject := PolyGroup 9;
                             Privilege := "admin"; Resource := "infra";
                             grant_OrganizationID := 1;
                             grant_DeletedAt := None |} ];
              identities_groups := [(7, 9)] |} |}.

(** A key for user 7 issued by provider 3 at time 1000, expiring at 2000,
    with an extension of 60 and an extension deadline at 1060. *)
Definition sample_key : AccessKey :=
  set_IssuedFor 7 (set_ProviderID 3 (set_ExpiresAt 2000 (set_Extension 60
    (set_ExtensionDeadline 1060 new_AccessKey)))).

Definition sample_created : (error + string * AccessKey) * Txn :=
  Eval vm_compute in
    CreateAccessKey 10 24 sample_ID_String (sample_env 1000) sample_key sample_tx.

Definition sample_credential : string := "k3yIDk3yID.abcdefghijklmnopqrstuvwx".

Definition sample_stored : AccessKey :=
  Eval vm_compute in
    match fst sample_created with
    | inr (_, a) => set_Secret "" a
    | inl _ => new_AccessKey
    end.

Definition sample_tx1 : Txn := Eval vm_compute in snd sample_created.

(** A key whose key-id holds a dot: ten bytes, as the length check asks. *)
Definition dotted_key : AccessKey :=
  set_KeyID "abcde.fghi" (set_Secret "abcdefghijklmnopqrstuvwx"
    (set_Name "ci" sample_key)).

(** The stored key seen from a transaction of another tenant. *)
Definition other_tenant_tx : Txn :=
  {| OrganizationID_of := 2; db := db sample_tx1 |}.

(** ** internal/access/access.go: role requirements *)

(** Modelled from the spec: [RequestContext] is not among the sources; the
    per-request carrier of the authenticated identity, [None] when there is
    none, and of the transaction handle.  It stands for the [*gin.Context]
    it is read from. *)
Record RequestContext := {
  DBTxn : Txn;
  Authenticated_User : option Identity
}.

(** Modelled from the spec: [identity.PolyID()] is not among the sources; the
    polymorphic identifier of a user. *)
Definition PolyID (identity : Identity) : PolymorphicID :=
  PolyIdentity (identity_ID identity).

(** [func getDB(c *gin.Context) *data.Transaction] *)
Definition getDB (c : RequestContext) : Txn := DBTxn c.

(** [const ResourceInfraAPI = "infra"] *)
Definition ResourceInfraAPI : string := "infra".

(** [func RequireInfraRole(c *gin.Context, oneOfRoles ...string) (data.GormTxn, error)] *)
Definition RequireInfraRole (c : RequestContext) (oneOfRoles : list string)
    : error + Txn :=
  let rCtx := c in
  let db := DBTxn rCtx in
  match Authenticated_User rCtx with
  | None => inl (errorString "access.go:42" "no active identity")
  | Some identity =>
      match fst (Can (PolyID identity) ResourceInfraAPI oneOfRoles db) with
      | inl err => inl err
      | inr true => inr db
      | inr false => inl ErrNotAuthorized
      end
  end.

(** [func hasAuthorization]: the owner of a resource needs no role. *)
Definition hasAuthorization (c : RequestContext) (requestedResource : uid_ID)
    (isResourceOwner : RequestContext -> uid_ID -> error + bool)
    (oneOfRoles : list string) : error + Txn :=
  match isResourceOwner c requestedResource with
  | inl err => inl (Errorf_w "access.go:24" "owner lookup: " err "")
  | inr true => inr (getDB c)
  | inr false => RequireInfraRole c oneOfRoles
  end.



(** ** internal/server/routes.go: migrations and registration helpers *)

(** [type apiMigration], of which the router reads the method, the path, the
    new path of a renamed one, and the two rewrite hooks, [None] being a
    nil hook.  The declaration is not among the sources. *)
Record apiMigration := {
  migration_method : string;
  migration_path : string;
  migration_rename : string;
  requestRewrite : option ginHandler;
  responseRewrite : option ginHandler
}.

(** [strings.ToUpper]: byte by byte on an ASCII string, and left to the
    Unicode tables, which are a parameter here, on any other string. *)
Definition is_ascii (c : ascii) : bool := (N_of_ascii c <? 128)%N.

Definition is_lower (c : ascii) : bool :=
  ((97 <=? N_of_ascii c) && (N_of_ascii c <=? 122))%N.

Definition upper_byte (c : ascii) : ascii :=
  if is_lower c then ascii_of_N (N_of_ascii c - 32) else c.

Fixpoint string_forallb (f : ascii -> bool) (s : string) : bool :=
  match s with
  | EmptyString => true
  | String c s' => f c && string_forallb f s'
  end.

Fixpoint string_map (f : ascii -> ascii) (s : string) : string :=
  match s with
  | EmptyString => EmptyString
  | String c s' => String (f c) (string_map f s')
  end.

Section Migrations.

(** [strings.Map(unicode.ToUpper, s)], used for strings that are not ASCII. *)
Variable unicode_ToUpper : string -> string.

Definition ToUpper (s : string) : string :=
  if string_forallb is_ascii s then
    if negb (string_forallb (fun c => negb (is_lower c)) s) then string_map upper_byte s
    else s
  else unicode_ToUpper s.

(** [func redirectsFor(a *API, method, path string) []apiMigration], on the
    migrations [a.migrations]. *)
Fixpoint redirectsFor (migrations : list apiMigration) (method path : string)
    : list apiMigration :=
  match migrations with
  | [] => []
  | migration :: rest =>
      if negb (String.eqb (ToUpper (migration_method migration)) method) then
        redirectsFor rest method path
      else if String.eqb (migration_rename migration) path then
        migration :: redirectsFor rest method path
      else redirectsFor rest method path
  end.

(** [func includeRewritesFor(a *API, method, path string) gin.HandlersChain],
    on the migrations [a.migrations]. *)
Fixpoint includeRewritesFor (migrations : list apiMigration) (method path : string)
    : list ginHandler :=
  match migrations with
  | [] => []
  | migration :: rest =>
      if negb (String.eqb (ToUpper (migration_method migration)) method) then
        includeRewritesFor rest method path
      else if negb (String.eqb (migration_path migration) path) then
        includeRewritesFor rest method path
      else
        let result :=
          match requestRewrite migration with
          | Some rewrite_request => [rewrite_request]
          | None => []
          end in
        let result :=
          match responseRewrite migration with
          | Some rewrite_response => result ++ [rewrite_response]
          | None => result
          end in
        result ++ includeRewritesFor rest method path
  end.

End Migrations.

(** The registration helpers [get], [post], [put] and [delete]. *)
Module register.
Section Register.
Context {Version : Type} `{SemVer Version} {Req Res : Type}.
Variable path_Join : string -> string -> string.
Variable B : @Binding Req.
Variable marshal : Res -> string.


Definition post (a : API Version) (r : RouterGroup Version) (path : string)
    (handler : @HandlerFunc Req Res) : API Version * RouterGroup Version :=
  add path_Join B marshal a r
    {| route_method := MethodPost; route_path := path; route_handler := handler;
       omitFromDocs := false |}.



End Register.
End register.

(** Two migrations of the users listing, registered with a lower-case
    method. *)
Definition sample_migrations : list apiMigration :=
  [ {| migration_method := "get"; migration_path := "/v1/users";
       migration_rename := "/api/users";
       requestRewrite := Some (legacy "request-0.12");
       responseRewrite := Some (legacy "response-0.12") |};
    {| migration_method := "get"; migration_path := "/v1/users";
       migration_rename := "";
       requestRewrite := None;
       responseRewrite := Some (legacy "response-0.13") |} ].

(** ** internal/logging/logger.go: the filtered writer *)

(** [bytes.HasPrefix(b, prefix)] *)
Fixpoint bytes_HasPrefix (b prefix : list byte) {struct prefix} : bool :=
  match prefix, b with
  | [], _ => true
  | p :: prefix', x :: b' => Byte.eqb p x && bytes_HasPrefix b' prefix'
  | _ :: _, [] => false
  end.

(** The first position at which [sep] occurs in [b], if there is one. *)
Fixpoint first_occurrence (b sep : list byte) : option nat :=
  if bytes_HasPrefix b sep then Some O
  else match b with
       | [] => None
       | _ :: b' => S <$> first_occurrence b' sep
       end.

(** [bytes.Index(b, sep)] (and [strings.Index] on the bytes of strings):
    the first position, or -1. *)
Definition bytes_Index (b sep : list byte) : Z :=
  match first_occurrence b sep with
  | Some i => Z.of_nat i
  | None => -1
  end.

Definition strings_Index (s sep : string) : Z :=
  bytes_Index (list_byte_of_string s) (list_byte_of_string sep).

(** Slice expressions, [None] when Go panics: [b[:hi]], [b[lo:]], [b[i]].
    The bound of [b[:hi]] is taken to be the length, which is at most the
    capacity Go checks. *)
Definition slice_to {A} (b : list A) (hi : Z) : option (list A) :=
  if (0 <=? hi) && (hi <=? Z.of_nat (length b)) then Some (take (Z.to_nat hi) b)
  else None.

Definition slice_from {A} (b : list A) (lo : Z) : option (list A) :=
  if (0 <=? lo) && (lo <=? Z.of_nat (length b)) then Some (drop (Z.to_nat lo) b)
  else None.

Definition at_index {A} (b : list A) (i : Z) : option A :=
  if 0 <=? i then b !! Z.to_nat i else None.

(** [var strInvalidHeaderFieldValue = []byte("invalid header field value")] *)
Definition strInvalidHeaderFieldValue : list byte :=
  list_byte_of_string "invalid header field value".

Definition forKey : list byte := list_byte_of_string "for key".

(** A value that [json.Unmarshal] puts in a [map[string]interface{}]: a
    string, or anything else. *)
Inductive JSONValue :=
| JSONString (s : string)
| JSONOther (raw : list byte).

(** What [Write] does with a line: it hands a payload to the destination,
    or writes nothing, after logging a complaint or not; [Panics] if a slice
    expression is out of range. *)
Inductive filtered :=
| Forwarded (payload : list byte)
| Omitted (complaint : option string)
| Panics.

Section FilteredWriter.

(** [encoding/json], on a [map[string]interface{}]. *)
Variable json_Unmarshal : list byte -> error + gmap string JSONValue.
Variable json_Marshal : gmap string JSONValue -> error + list byte.

(** The body of [func (w *filteredWriterSyncer) Write(b []byte) (int, error)]
    up to the calls of [w.dest.Write]. *)
Definition filter_line (b : list byte) : filtered :=
  let idx := bytes_Index b strInvalidHeaderFieldValue in
  if 0 <=? idx then
    let idx := idx + Z.of_nat (length strInvalidHeaderFieldValue) in
    let forKeyIdx := bytes_Index b forKey in
    if idx <? forKeyIdx then
      match slice_to b (idx + 1), slice_from b forKeyIdx with
      | Some head, Some tail => Forwarded (head ++ tail)
      | _, _ => Panics
      end
    else
      match at_index b 0 with
      | None => Panics
      | Some first =>
          if negb (Byte.eqb first "{"%byte) then
            (* not json; free to truncate. *)
            match slice_to b idx with
            | Some head => Forwarded head
            | None => Panics
            end
          else
            match json_Unmarshal b with
            | inl _ =>
                Omitted (Some "Had some trouble parsing log line that needs to be filtered. Omitting log entry"%string)
            | inr m =>
                match m !! "msg"%string with
                | Some (JSONString smsg) =>
                    let idx := strings_Index smsg
                                 (string_of_list_byte strInvalidHeaderFieldValue) in
                    if 0 <=? idx then
                      match slice_to (list_byte_of_string smsg)
                              (idx + Z.of_nat (length strInvalidHeaderFieldValue)) with
                      | None => Panics
                      | Some cut =>
                          match json_Marshal
                                  (<["msg"%string := JSONString (string_of_list_byte cut)]> m) with
                          | inr newBytes => Forwarded newBytes
                          | inl _ => Omitted None
                          end
                      end
                    else Omitted None
                | _ => Omitted None
                end
            end
      end
  else Forwarded b.

(** [Write], for a destination [dest] with its own state: what the
    destination returns for the payload, or [(0, nil)] when nothing is
    written; [None] when the call panics. *)
Definition filteredWriterSyncer_Write {Dest : Type}
    (dest_Write : list byte -> Dest -> (Z * option error) * Dest)
    (b : list byte) (dest : Dest) : option ((Z * option error) * Dest) :=
  match filter_line b with
  | Forwarded payload => Some (dest_Write payload dest)
  | Omitted _ => Some ((0, None), dest)
  | Panics => None
  end.

End FilteredWriter.

(** A destination that appends what it is given to a buffer. *)
Definition buffer_Write (payload : list byte) (buffer : list byte)
    : (Z * option error) * list byte :=
  ((Z.of_nat (length payload), None), buffer ++ payload).

(** Lines for the filtered writer: a complaint of the http server about a
    header, the same without the header's name, and one in JSON; with a
    decoder and an encoder that know objects of one field [msg]. *)
Definition sample_plain_line : list byte :=
  list_byte_of_string "http2: invalid header field value s3cret for key Authorization".

Definition sample_cut_line : list byte :=
  list_byte_of_string "http2: invalid header field value s3cret".

Definition json_object_of_msg (msg : list byte) : list byte :=
  list_byte_of_string "{" ++ [x22] ++ list_byte_of_string "msg" ++ [x22]
  ++ list_byte_of_string ":" ++ [x22] ++ msg ++ [x22] ++ list_byte_of_string "}".

Definition sample_json_line : list byte := json_object_of_msg sample_cut_line.

Definition sample_json_Unmarshal (b : list byte) : error + gmap string JSONValue :=
  if bytes_HasPrefix b sample_json_line && (length b =? length sample_json_line)%nat
  then inr {[ "msg"%string := JSONString (string_of_list_byte sample_cut_line) ]}
  else inl (errorString "json.SyntaxError" "invalid character").

Definition sample_json_Marshal (m : gmap string JSONValue) : error + list byte :=
  match m !! "msg"%string with
  | Some (JSONString s) => inr (json_object_of_msg (list_byte_of_string s))
  | _ => inl (errorString "json.UnsupportedValueError" "unsupported value")
  end.

(** ** internal/registry/authn/oidc.go *)

Module authn.

(** [type UserInfo struct]: the fields of a user-info response that are
    kept. *)
Record UserInfo := { Email : string; Groups : list string }.

Record oidcImplementation := {
  Domain : string;
  ClientID : string;
  ClientSecret : string
}.

(** [func NewOIDC(domain, clientID, clientSecret string) OIDC] *)
Definition NewOIDC (domain clientID clientSecret : string) : oidcImplementation :=
  {| Domain := domain; ClientID := clientID; ClientSecret := clientSecret |}.

(** The fields of a [*models.ProviderToken] that the methods read. *)
Record ProviderToken := {
  AccessToken : string;
  RefreshToken : string;
  ExpiresAt : Time
}.

(** [oauth2.Token]: the three fields the code sets and reads, and what
    [Extra] gives for a key, [None] being nil. *)
Record oauth2_Token := {
  oauth2_AccessToken : string;
  oauth2_RefreshToken : string;
  oauth2_Expiry : Time;
  oauth2_Extra : string -> option JSONValue
}.

(** A type assertion [v.(string)] on what [Extra] gives. *)
Definition as_string (v : option JSONValue) : option string :=
  match v with
  | Some (JSONString s) => Some s
  | _ => None
  end.

Section OIDC.

(** The identity provider and the libraries that talk to it.  Each of these
    calls is made at most once during a call of a method, so that its answer
    during that call is a function of its arguments. *)
Variables Provider Endpoint TokenSource JSONWebToken IDToken ResponseBody : Type.

(** [oauth2.Config] *)
Record oauth2_Config := {
  conf_ClientID : string;
  conf_ClientSecret : string;
  RedirectURL : string;
  Scopes : list string;
  conf_Endpoint : Endpoint
}.

(** [http.Response], as far as it is read. *)
Record http_Response := { StatusCode : Z; Body : ResponseBody }.

Variable oidc_NewProvider : string -> error + Provider.
Variable provider_Endpoint : Provider -> Endpoint.
Variable conf_Exchange : oauth2_Config -> string -> error + oauth2_Token.
Variable conf_TokenSource : oauth2_Config -> oauth2_Token -> TokenSource.
Variable tokenSource_Token : TokenSource -> error + oauth2_Token.
Variable jwt_ParseSigned : string -> error + JSONWebToken.
(** [UnsafeClaimsWithoutVerification] into a [jwt.Claims], of which
    [Expiry.Time()] is read. *)
Variable UnsafeClaimsWithoutVerification : JSONWebToken -> error + Time.
(** [provider.Verifier(&oidc.Config{ClientID: id}).Verify(ctx, raw)] *)
Variable verifier_Verify : Provider -> string -> string -> error + IDToken.
(** [idToken.Claims] into a struct of one field [email]. *)
Variable idToken_Claims : IDToken -> error + string.
(** [http.NewRequestWithContext(ctx, method, url, nil)]: the error, if any. *)
Variable http_NewRequest : string -> string -> option error.
(** [oauth2.NewClient(ctx, tokenSource).Do(req)] for a request with a method,
    a URL and an [Authorization] header. *)
Variable client_Do : TokenSource -> string -> string -> string -> error + http_Response.
(** [json.NewDecoder(body).Decode] into a [UserInfo]. *)
Variable json_Decode : ResponseBody -> error + UserInfo.
(** The sentinel [internal.ErrForbidden]. *)
Variable ErrForbidden : error.

(** [func (o *oidcImplementation) clientConfig]: the OAuth client
    configuration needed to interact with an identity provider. *)
Definition clientConfig (o : oidcImplementation) : error + (oauth2_Config * Provider) :=
  match oidc_NewProvider ("https://" +:+ Domain o) with
  | inl err => inl (Errorf_w "oidc.go:49" "get provider openid info: " err "")
  | inr provider =>
      inr ({| conf_ClientID := ClientID o;
              conf_ClientSecret := ClientSecret o;
              RedirectURL := "http://localhost:8301";
              Scopes := ["openid"; "email"; "groups"; "offline_access"]%string;
              conf_Endpoint := provider_Endpoint provider |},
           provider)
  end.

(** [func (o *oidcImplementation) tokenSource] *)
Definition tokenSource (o : oidcImplementation) (providerTokens : ProviderToken)
    : error + TokenSource :=
  match clientConfig o with
  | inl err => inl (Errorf_w "oidc.go:68" "call idp with tokens: " err "")
  | inr (conf, _) =>
      let userToken := {| oauth2_AccessToken := AccessToken providerTokens;
                          oauth2_RefreshToken := RefreshToken providerTokens;
                          oauth2_Expiry := ExpiresAt providerTokens;
                          oauth2_Extra := fun _ => None |} in
      inr (conf_TokenSource conf userToken)
  end.

(** [func getAccessTokenExpiry(rawAccessToken string) (time.Time, error)] *)
Definition getAccessTokenExpiry (rawAccessToken : string) : error + Time :=
  match jwt_ParseSigned rawAccessToken with
  | inl err => inl (Errorf_w "oidc.go:187" "parse acc: " err "")
  | inr accessToken =>
      (* as long as we are only getting the expiry for the access token
         claims here we dont need to validate them *)
      match UnsafeClaimsWithoutVerification accessToken with
      | inl err => inl (Errorf_w "oidc.go:194" "acc token exp claim: " err "")
      | inr expiry => inr expiry
      end
  end.

(** [func (o *oidcImplementation) ExchangeAuthCodeForProviderTokens]: the
    access token, the refresh token, the expiry of the access token and the
    email, or an error. *)
Definition ExchangeAuthCodeForProviderTokens (o : oidcImplementation) (code : string)
    : error + (string * string * Time * string) :=
  match clientConfig o with
  | inl err => inl (Errorf_w "oidc.go:84" "client exchange code: " err "")
  | inr (conf, provider) =>
  match conf_Exchange conf code with
  | inl err => inl (Errorf_w "oidc.go:89" "code exchange: " err "")
  | inr exchanged =>
  match as_string (oauth2_Extra exchanged "access_token") with
  | None => inl (errorString "oidc.go:94" "could not extract access token from oauth2")
  | Some rawAccessToken =>
  match as_string (oauth2_Extra exchanged "refresh_token") with
  | None => inl (errorString "oidc.go:99" "could not extract refresh token from oauth2")
  | Some rawRefreshToken =>
  match as_string (oauth2_Extra exchanged "id_token") with
  | None => inl (errorString "oidc.go:104" "could not extract id_token from oauth2 token")
  | Some rawIDToken =>
  match getAccessTokenExpiry rawAccessToken with
  | inl err => inl (Errorf_w "oidc.go:109" "get exp: " err "")
  | inr exp =>
  (* we get sensitive claims from the ID token, must validate them *)
  match verifier_Verify provider (ClientID o) rawIDToken with
  | inl err => inl (Errorf_w "oidc.go:116" "validate id token: " err "")
  | inr idToken =>
  match idToken_Claims idToken with
  | inl err => inl (Errorf_w "oidc.go:123" "id cliams: " err "")
  | inr email => inr (rawAccessToken, rawRefreshToken, exp, email)
  end end end end end end end end.

(** [func (o *oidcImplementation) RefreshAccessToken]: the access token and
    its expiry. *)
Definition RefreshAccessToken (o : oidcImplementation) (providerTokens : ProviderToken)
    : error + (string * Time) :=
  match tokenSource o providerTokens with
  | inl err => inl (Errorf_w "oidc.go:133" "ref token source: " err "")
  | inr source =>
      (* this refreshes token if needed *)
      match tokenSource_Token source with
      | inl err => inl (Errorf_w "oidc.go:138" "refresh user token: " err "")
      | inr newToken => inr (oauth2_AccessToken newToken, oauth2_Expiry newToken)
      end
  end.

(** [func (o *oidcImplementation) GetUserInfo] *)
Definition GetUserInfo (o : oidcImplementation) (providerTokens : ProviderToken)
    : error + UserInfo :=
  match tokenSource o providerTokens with
  | inl err => inl (Errorf_w "oidc.go:150" "info token source: " err "")
  | inr source =>
      let userInfoEndpoint := ("https://" +:+ Domain o +:+ "/oauth2/v1/userinfo")%string in
      match http_NewRequest MethodGet userInfoEndpoint with
      | Some err => inl (Errorf_w "oidc.go:159" "userinfo request " err "")
      | None =>
          match client_Do source MethodGet userInfoEndpoint
                  ("Bearer " +:+ AccessToken providerTokens) with
          | inl err => inl (Errorf_w "oidc.go:166" "user info response: " err "")
          | inr resp =>
              if StatusCode resp =? StatusUnauthorized then
                (* access token has been revoked, user is no longer valid *)
                inl ErrForbidden
              else
                match json_Decode (Body resp) with
                | inl err => inl (Errorf_w "oidc.go:178" "decode user info response: " err "")
                | inr info => inr info
                end
          end
      end
  end.

End OIDC.

End authn.

(** ** internal/registry/cookie.go *)

Module registry.

Definition CookieTokenName : string := "token".
Definition CookieLoginName : string := "login".
Definition CookieDomain : string := "".
Definition CookiePath : string := "/".
Definition CookieHTTPOnlyJavascriptAccessible : bool := false.
Definition CookieHTTPOnlyNotJavascriptAccessible : bool := true.
Definition CookieSecureHTTPSOnly : bool := true.
Definition CookieSecureHttpOrHTTPS : bool := false.
(** <0: delete immediately *)
Definition CookieMaxAgeDeleteImmediately : Z := -1.
(** zero has special meaning of "no expiry" *)
Definition CookieMaxAgeNoExpiry : Z := 0.

(** [http.SameSite] *)
Inductive SameSite :=
| SameSiteDefaultMode
| SameSiteLaxMode
| SameSiteStrictMode
| SameSiteNoneMode.

(** The calls made on the [*gin.Context], in order. *)
Inductive gin_call :=
| SetSameSite (samesite : SameSite)
| SetCookie (name value : string) (maxAge : Z) (path domain : string)
            (secure httpOnly : bool).

Section Cookies.

(** [int(d.Seconds())]: the whole seconds of a duration, as the conversion
    of the floating-point number of seconds gives them. *)
Variable int_Seconds : Duration -> Z.

(** [time.Until(t)] at a reading [now] of the clock. *)
Definition Time_Until (now t : Time) : Duration := t - now.

(** [func setAuthCookie(c *gin.Context, token string, sessionDuration
    time.Duration)]: the calls on [c]. *)
Definition setAuthCookie (env : Env) (token : string) (sessionDuration : Duration)
    : list gin_call :=
  let expires := Time_Add (Now env 0) sessionDuration in
  let maxAge := int_Seconds (Time_Until (Now env 1) expires) in
  let maxAge := if maxAge =? CookieMaxAgeNoExpiry then CookieMaxAgeDeleteImmediately
                else maxAge in
  [ SetSameSite SameSiteStrictMode;
    SetCookie CookieTokenName token maxAge CookiePath CookieDomain
      CookieSecureHTTPSOnly CookieHTTPOnlyNotJavascriptAccessible;
    SetCookie CookieLoginName "1" maxAge CookiePath CookieDomain
      CookieSecureHTTPSOnly CookieHTTPOnlyNotJavascriptAccessible ].

End Cookies.

(** [func deleteAuthCookie(c *gin.Context)]: the calls on [c]. *)
Definition deleteAuthCookie : list gin_call :=
  [ SetCookie CookieTokenName "" CookieMaxAgeDeleteImmediately CookiePath CookieDomain
      CookieSecureHTTPSOnly CookieHTTPOnlyNotJavascriptAccessible;
    SetCookie CookieLoginName "" CookieMaxAgeDeleteImmediately CookiePath CookieDomain
      CookieSecureHTTPSOnly CookieHTTPOnlyNotJavascriptAccessible ].

(** The attributes of the cookies a sequence of calls sets: a cookie takes
    the mode of the last [SetSameSite] before it, [current] at first. *)
Fixpoint cookies_set (current : SameSite) (calls : list gin_call)
    : list (string * string * Z * SameSite * bool * bool) :=
  match calls with
  | [] => []
  | SetSameSite mode :: rest => cookies_set mode rest
  | SetCookie name value maxAge _ _ secure httpOnly :: rest =>
      (name, value, maxAge, current, secure, httpOnly) :: cookies_set current rest
  end.

End registry.

(** ** The logout command *)

Module cmd.

(** The fields of a registry configuration that [logout] reads. *)
Record RegistryConfig := {
  Host : string;
  Token : string;
  SkipTLSVerify : bool;
  Current : bool
}.

Section Logout.

Variable ApiClient : Type.

(** What [logout] does to the world, its results being discarded: the
    logout request sent through a client, [updateKubeconfig] with a list of
    so many destinations, [os.RemoveAll], [os.Remove] and
    [removeRegistryConfig]. *)
Inductive effect :=
| AuthApi_Logout (client : ApiClient) (token : string)
| updateKubeconfig (destinations : nat)
| os_RemoveAll (path : string)
| os_Remove (path : string)
| removeRegistryConfig (host : string).

(** [readRegistryConfig], [None] being the nil configuration. *)
Variable readRegistryConfig : string -> error + option RegistryConfig.
Variable NewApiClient : string -> bool -> error + ApiClient.
Variable os_UserHomeDir : error + string.
Variable filepath_Join : list string -> string.

(** [func logout(registry string) error]: the error, [None] being nil, and
    the effects in order. *)
Definition logout (registry : string) : option error * list effect :=
  match readRegistryConfig registry with
  | inl err => (Some err, [])
  | inr None => (None, [])
  | inr (Some config) =>
      let sent :=
        match NewApiClient (Host config) (SkipTLSVerify config) with
        | inr client => [AuthApi_Logout client (Token config)]
        | inl _ => []
        end in
      (* only clean up cache and destinations if logging out of current
         registry *)
      let cleaned :=
        if Current config then
          updateKubeconfig 0 ::
          match os_UserHomeDir with
          | inr homeDir =>
              [ os_RemoveAll (filepath_Join [homeDir; ".infra"; "cache"]%string);
                os_Remove (filepath_Join [homeDir; ".infra"; "destinations"]%string) ]
          | inl _ => []
          end
        else [] in
      (None, sent ++ cleaned ++ [removeRegistryConfig (Host config)])
  end.

End Logout.

End cmd.

(** A client of an identity provider, the tokens of an exchange, the error
    of a provider that cannot be reached, and the tokens of a user. *)
Definition sample_oidc : authn.oidcImplementation :=
  authn.NewOIDC "idp.example.com" "client-id" "client-secret".

Definition sample_exchanged : authn.oauth2_Token :=
  {| authn.oauth2_AccessToken := "acc";
     authn.oauth2_RefreshToken := "ref";
     authn.oauth2_Expiry := 0;
     authn.oauth2_Extra := fun key =>
       if String.eqb key "access_token" then Some (JSONString "acc")
       else if String.eqb key "refresh_token" then Some (JSONString "ref")
       else if String.eqb key "id_token" then Some (JSONString "idt")
       else None |}.

Definition unreachable : error := errorString "net.OpError" "connection refused".

Definition sample_token : authn.ProviderToken :=
  {| authn.AccessToken := "acc"; authn.RefreshToken := "ref"; authn.ExpiresAt := 5000 |}.

(** * Properties *)

(** ** Strings *)

Lemma append_cons (x : ascii) (a b : string) :
  (String x a +:+ b = String x (a +:+ b))%string.
Proof. reflexivity. Qed.

Lemma append_assoc (a b c : string) : ((a +:+ b) +:+ c = a +:+ (b +:+ c))%string.
Proof.
  induction a as [|x a IH]; [reflexivity |].
  now rewrite !append_cons, IH.
Qed.

Lemma append_empty_r (a : string) : (a +:+ "" = a)%string.
Proof.
  induction a as [|x a IH]; [reflexivity |].
  now rewrite append_cons, IH.
Qed.

Lemma append_length (a b : string) :
  String.length (a +:+ b) = (String.length a + String.length b)%nat.
Proof.
  induction a as [|x a IH]; [reflexivity |].
  rewrite append_cons. simpl. now rewrite IH.
Qed.

(** ** Error chains *)

(** A comparable target is found under any number of [%w] wrappings. *)
Lemma Is_chain_reaches (err target : error) :
  Comparable target = true -> reaches err target -> Is_chain err target = true.
Proof.
  intros Hc Hr. induction Hr as [e | p msg inner target Hr IH].
  - destruct e; simpl in *; try discriminate; now rewrite String.eqb_refl.
  - cbn [Is_chain Is_method from_option]. rewrite (IH Hc).
    now destruct (Comparable target && iface_eq (wrapError p msg inner) target).
Qed.

(** An [AuthorizationError] anywhere in the chain matches the sentinel too,
    through its [Is] method. *)
Lemma Is_chain_AuthorizationError (err : error) (r o : string) (rs : list string) :
  reaches err (AuthorizationError r o rs) -> Is_chain err ErrNotAuthorized = true.
Proof.
  intros Hr. remember (AuthorizationError r o rs) as t eqn:Ht.
  induction Hr as [e | p msg inner target Hr IH]; subst.
  - reflexivity.
  - simpl. destruct (String.eqb p "access.ErrNotAuthorized"); auto.
Qed.

(** What [errors.Is(err, ErrNotAuthorized)] decides: the chain of [err] holds
    the sentinel allocation itself or an [AuthorizationError]. *)
Lemma Is_chain_ErrNotAuthorized (err : error) :
  Is_chain err ErrNotAuthorized = true <->
  (exists s, reaches err (errorString "access.ErrNotAuthorized" s))
  \/ (exists r o rs, reaches err (AuthorizationError r o rs)).
Proof.
  split.
  - induction err as [q s' | q msg inner IH | r o rs]; simpl.
    + destruct (String.eqb_spec q "access.ErrNotAuthorized") as [-> | ]; [| discriminate].
      intros _. left. exists s'. constructor.
    + intros Hin. destruct (IH Hin) as [[s' Hr] | (r & o & rs & Hr)].
      * left. exists s'. now constructor.
      * right. exists r, o, rs. now constructor.
    + intros _. right. exists r, o, rs. constructor.
  - intros [[s Hr] | (r & o & rs & Hr)].
    + remember (errorString "access.ErrNotAuthorized" s) as t eqn:Ht.
      induction Hr as [e | p msg inner target Hr IH]; subst; [reflexivity |].
      simpl. auto.
    + eapply Is_chain_AuthorizationError; eauto.
Qed.

(** ** HandleAuthErr and the message of an AuthorizationError *)

Lemma HandleAuthErr_match (err : option error) (resource operation : string)
    (roles : list string) :
  errors_Is err ErrNotAuthorized = true ->
  HandleAuthErr err resource operation roles
  = Some (AuthorizationError resource operation roles).
Proof. intros Hm. unfold HandleAuthErr. now rewrite Hm. Qed.

Lemma HandleAuthErr_other (err : option error) (resource operation : string)
    (roles : list string) :
  errors_Is err ErrNotAuthorized = false ->
  HandleAuthErr err resource operation roles = err.
Proof. intros Hm. unfold HandleAuthErr. now rewrite Hm. Qed.

(** The sentinel is recognised under any wrapping, whatever the resource,
    the operation and the roles. *)
Lemma HandleAuthErr_wrapped (err : error) (resource operation : string)
    (roles : list string) :
  reaches err ErrNotAuthorized ->
  HandleAuthErr (Some err) resource operation roles
  = Some (AuthorizationError resource operation roles).
Proof.
  intros Hr. apply HandleAuthErr_match. simpl.
  now apply Is_chain_reaches.
Qed.

Lemma HandleAuthErr_nil (resource operation : string) (roles : list string) :
  HandleAuthErr None resource operation roles = None.
Proof. reflexivity. Qed.

Lemma roles_loop_joined (rest : list string) (i : Z) (roles : string) :
  0 <= i ->
  roles_loop i (i + Z.of_nat (length rest)) rest roles = (roles +:+ joined rest)%string.
Proof.
  revert i roles. induction rest as [|r rest IH]; intros i roles Hi.
  - simpl. now rewrite append_empty_r.
  - cbn [roles_loop].
    replace (i + Z.of_nat (length (r :: rest))) with (i + 1 + Z.of_nat (length rest))
      by (cbn [length]; lia).
    rewrite IH by lia.
    destruct rest as [|l rest].
    + cbn [length joined]. 
      replace (i + 1 =? i + 1 + Z.of_nat 0 - 1) with false by (symmetry; apply Z.eqb_neq; lia).
      replace (i + 1 =? i + 1 + Z.of_nat 0) with true by (symmetry; apply Z.eqb_eq; lia).
      cbn [negb]. now rewrite append_empty_r.
    + destruct rest as [|l' rest].
      * cbn [length].
        replace (i + 1 =? i + 1 + Z.of_nat 1 - 1) with true by (symmetry; apply Z.eqb_eq; lia).
        cbn [joined]. now rewrite !append_assoc.
      * replace (i + 1 =? i + 1 + Z.of_nat (length (l :: l' :: rest)) - 1) with false
          by (symmetry; apply Z.eqb_neq; cbn [length]; lia).
        replace (i + 1 =? i + 1 + Z.of_nat (length (l :: l' :: rest))) with false
          by (symmetry; apply Z.eqb_neq; cbn [length]; lia).
        cbn [negb]. 
        change (joined (r :: l :: l' :: rest))
          with (r +:+ ", " +:+ joined (l :: l' :: rest))%string.
        now rewrite !append_assoc.
Qed.

Lemma roles_text_joined (roles : list string) : roles_text roles = joined roles.
Proof.
  unfold roles_text. destruct roles as [|r [|l rest]]; try reflexivity.
  apply (roles_loop_joined (r :: l :: rest) 0 ""). lia.
Qed.

Lemma message_one_role (X : string) : roles_text [X] = X.
Proof. reflexivity. Qed.

Lemma message_three_roles (X Y Z : string) :
  roles_text [X; Y; Z] = (X +:+ ", " +:+ Y +:+ ", or " +:+ Z)%string.
Proof. now rewrite roles_text_joined. Qed.

(** C4 (the two-role case): for two required roles the message joins them
    with [", or "], so it reads "X, or Y" where the specification asks for
    "X or Y"; with the roles admin and view it is not the text
    "... requires role admin or view". *)
Theorem C4_two_roles_message :
  (forall resource operation X Y : string,
     Error (AuthorizationError resource operation [X; Y])
     = ("you do not have permission to " +:+ operation +:+ " " +:+ resource
          +:+ ", requires role " +:+ X +:+ ", or " +:+ Y)%string)
  /\ Error (AuthorizationError "grant" "create" ["admin"; "view"]%string)
     = "you do not have permission to create grant, requires role admin, or view"%string
  /\ Error (AuthorizationError "grant" "create" ["admin"; "view"]%string)
     <> "you do not have permission to create grant, requires role admin or view"%string.
Proof.
  split; [| split].
  - intros. unfold Error, AuthorizationError_Error.
    now rewrite roles_text_joined.
  - reflexivity.
  - discriminate.
Qed.

(** ** Version dispatch *)

Section RouterFacts.
Context {Version : Type} `{SemVer Version}.

Lemma GreaterThan_LessThan (v o : Version) : GreaterThan v o = LessThan o v.
Proof.
  unfold GreaterThan, LessThan. rewrite (Compare_antisym v o).
  now destruct (Compare v o).
Qed.

Lemma handlerForVersion_find (versions : list (routeVersion Version)) (reqVer : Version) :
  handlerForVersion versions reqVer
  = handler <$> List.find (fun rv => negb (LessThan (version rv) reqVer)) versions.
Proof.
  induction versions as [|v rest IH]; [reflexivity |].
  cbn [handlerForVersion List.find]. rewrite GreaterThan_LessThan.
  destruct (LessThan (version v) reqVer); [exact IH | reflexivity].
Qed.

Lemma handlerForVersion_None (versions : list (routeVersion Version)) (reqVer : Version) :
  handlerForVersion versions reqVer = None
  <-> Forall (fun rv => LessThan (version rv) reqVer = true) versions.
Proof.
  induction versions as [|v rest IH]; cbn [handlerForVersion].
  - split; [constructor | reflexivity].
  - rewrite GreaterThan_LessThan.
    destruct (LessThan (version v) reqVer) eqn:E.
    + rewrite IH. split; [now constructor | now inversion 1].
    + split; [discriminate | inversion 1; congruence].
Qed.

(** The selected handler is registered, its version is not less than the
    requested one, and every version registered before it is less. *)
Lemma handlerForVersion_Some (versions : list (routeVersion Version)) (reqVer : Version)
    (h : ginHandler) :
  handlerForVersion versions reqVer = Some h ->
  exists before rv after,
    versions = before ++ rv :: after
    /\ handler rv = h
    /\ LessThan (version rv) reqVer = false
    /\ Forall (fun x => LessThan (version x) reqVer = true) before.
Proof.
  induction versions as [|v rest IH]; cbn [handlerForVersion]; [discriminate |].
  rewrite GreaterThan_LessThan. destruct (LessThan (version v) reqVer) eqn:E.
  - intros Hs. destruct (IH Hs) as (before & rv & after & -> & Hh & Hl & Hb).
    exists (v :: before), rv, after. repeat split; auto.
  - intros [= <-]. exists [], v, rest. repeat split; auto.
Qed.

Section Dispatch.
Context {Req Res : Type} (B : @Binding Req) (marshal : Res -> string).

Lemma add_handler_dispatch (rt : @route Req Res) (a : API Version) (c : Context)
    (reqVer : Version) :
  versionFromHeader (request c) = inr reqVer ->
  add_handler B marshal rt a c
  = match handlerForVersion
            (default [] (versions a !! (route_method rt, route_path rt))) reqVer with
    | Some versionedHandler => versionedHandler c
    | None => wrapHandler B marshal (route_handler rt) c
    end.
Proof. intros Hv. unfold add_handler. now rewrite Hv. Qed.

(** C3: for every registered list of (version, handler) pairs and every
    requested version, selection returns the first registered handler whose
    version is not less than the requested one; when every registered version
    is less than the requested one selection returns none, and the request
    is served by the latest, unversioned handler of the route. *)
Theorem C3_first_version_not_less (rt : @route Req Res) (a : API Version)
    (c : Context) (versions_rt : list (routeVersion Version)) (reqVer : Version) :
  handlerForVersion versions_rt reqVer
  = handler <$> List.find (fun rv => negb (LessThan (version rv) reqVer)) versions_rt
  /\ (Forall (fun rv => LessThan (version rv) reqVer = true) versions_rt ->
      handlerForVersion versions_rt reqVer = None
      /\ (versions a !! (route_method rt, route_path rt) = Some versions_rt ->
          versionFromHeader (request c) = inr reqVer ->
          add_handler B marshal rt a c = wrapHandler B marshal (route_handler rt) c)).
Proof.
  split; [apply handlerForVersion_find |].
  intros Hall. apply handlerForVersion_None in Hall. split; [exact Hall |].
  intros Hreg Hv. rewrite (add_handler_dispatch rt a c reqVer Hv), Hreg.
  simpl. now rewrite Hall.
Qed.

End Dispatch.
End RouterFacts.

Lemma C3_witness :
  handlerForVersion listing_versions (mkVersion 0 11 0) = Some (legacy "v0.12.0")
  /\ handlerForVersion listing_versions (mkVersion 0 13 0) = None
  /\ add_handler listing_binding id listing_route listing_api
       (listing_request (declaring "0.13.0"))
     = wrapHandler listing_binding id (route_handler listing_route)
         (listing_request (declaring "0.13.0")).
Proof.
  split.
  - rewrite (proj1 (C3_first_version_not_less listing_binding id listing_route
                      listing_api (listing_request (declaring "0.11.0"))
                      listing_versions (mkVersion 0 11 0))).
    reflexivity.
  - destruct (C3_first_version_not_less listing_binding id listing_route
                listing_api (listing_request (declaring "0.13.0"))
                listing_versions (mkVersion 0 13 0)) as [_ Hnone].
    destruct Hnone as [Hsel Hrun].
    + repeat constructor.
    + split; [exact Hsel |]. apply Hrun; vm_compute; reflexivity.
Defined.

(** ** The version header *)


Section HeaderFacts.
Context {Version : Type} `{SemVer Version}.
Context {Req Res : Type} (B : @Binding Req) (marshal : Res -> string).



(** The branch "Infra-Version header required" is never taken. *)
Lemma versionFromHeader_never_required (req : Request) (err : error) :
  versionFromHeader req = inl err ->
  exists cause, err = Errorf_w "routes.go:198" "" ErrBadRequest
                        (": invalid Infra-Version header: " +:+ Error cause).
Proof.
  unfold versionFromHeader.
  destruct (String.eqb (Header_Get (Header req) "Infra-Version") "") eqn:E; simpl.
  - destruct (NewVersion "0.0.0") as [cause|v]; [| discriminate].
    intros [= <-]. now exists cause.
  - rewrite E. destruct (NewVersion _) as [cause|v]; [| discriminate].
    intros [= <-]. now exists cause.
Qed.



End HeaderFacts.


(** ** Rows and records *)

Lemma Scan_Values (a : AccessKey) : Scan (Values a) = Some (set_Secret "" a).
Proof. destruct a; reflexivity. Qed.

Ltac next_column row :=
  let v := fresh "v" in
  destruct row as [|v row]; [discriminate |];
  destruct v; try discriminate.

(** A row scans into a record exactly when it is the row of that record;
    the plaintext secret is not read from the store. *)
Lemma Scan_Some (row : list any) (a : AccessKey) :
  Scan row = Some a -> row = Values a /\ Secret a = ""%string.
Proof.
  unfold Scan. cbn.
  do 14 (next_column row; cbn).
  destruct row; [| discriminate].
  intros [= <-]. split; reflexivity.
Qed.

Lemma Values_ignores_Secret (a : AccessKey) (s : string) :
  Values (set_Secret s a) = Values a.
Proof. reflexivity. Qed.

Lemma Values_inj_fields (a b : AccessKey) :
  Values a = Values b -> set_Secret "" a = set_Secret "" b.
Proof.
  intros Hv. apply (f_equal Scan) in Hv. rewrite !Scan_Values in Hv. congruence.
Qed.

(** ** Constant-time comparison *)

Lemma ConstantTimeCompare_loop_same (x : list byte) :
  ConstantTimeCompare_loop x x 0 = 0%N.
Proof.
  induction x as [|a x IH]; [reflexivity |].
  cbn [ConstantTimeCompare_loop]. now rewrite N.lxor_nilpotent.
Qed.

Lemma ConstantTimeCompare_same (x : list byte) : ConstantTimeCompare x x = 1.
Proof.
  unfold ConstantTimeCompare. rewrite Nat.eqb_refl. cbn [negb].
  rewrite ConstantTimeCompare_loop_same. reflexivity.
Qed.

Lemma lor_lxor_below (v a b : N) :
  (v < 2 ^ 8 -> a < 2 ^ 8 -> b < 2 ^ 8 -> N.lor v (N.lxor a b) < 2 ^ 8)%N.
Proof.
  intros Hv Ha Hb.
  destruct (N.eq_dec (N.lor v (N.lxor a b)) 0%N) as [-> | Hnz]; [reflexivity |].
  apply N.log2_lt_pow2; [lia |].
  rewrite N.log2_lor.
  assert (Hl : forall n, (n < 2 ^ 8 -> N.log2 n < 8)%N).
  { intros n Hn. destruct (N.eq_dec n 0%N) as [-> | Hn0]; [reflexivity |].
    apply N.log2_lt_pow2; lia. }
  pose proof (N.log2_lxor a b). pose proof (Hl v Hv). pose proof (Hl a Ha).
  pose proof (Hl b Hb). lia.
Qed.

Lemma to_N_below (a : byte) : (Byte.to_N a < 2 ^ 8)%N.
Proof. pose proof (Byte.to_N_bounded a). change (2 ^ 8)%N with 256%N. lia. Qed.

Lemma to_N_inj (a b : byte) : Byte.to_N a = Byte.to_N b -> a = b.
Proof.
  intros Hab. pose proof (Byte.of_to_N a) as Ha. rewrite Hab, Byte.of_to_N in Ha.
  congruence.
Qed.

Lemma ConstantTimeCompare_loop_spec (x y : list byte) (v : N) :
  length x = length y -> (v < 2 ^ 8)%N ->
  (ConstantTimeCompare_loop x y v < 2 ^ 8)%N
  /\ (ConstantTimeCompare_loop x y v = 0%N <-> v = 0%N /\ x = y).
Proof.
  revert y v. induction x as [|a x IH]; intros [|b y] v Hlen Hv; try discriminate.
  - cbn. tauto.
  - cbn [ConstantTimeCompare_loop]. injection Hlen as Hlen.
    destruct (IH y (N.lor v (N.lxor (Byte.to_N a) (Byte.to_N b))) Hlen) as [Hb Hz].
    { apply lor_lxor_below; auto using to_N_below. }
    split; [exact Hb |]. rewrite Hz, N.lor_eq_0_iff, N.lxor_eq_0_iff.
    split.
    + intros [[-> Hab] ->]. apply to_N_inj in Hab. now subst.
    + intros [-> [= -> ->]]. auto.
Qed.

(** The comparison answers 1 exactly on equal byte strings. *)
Lemma ConstantTimeCompare_eq (x y : list byte) :
  ConstantTimeCompare x y = 1 <-> x = y.
Proof.
  split; [| intros ->; apply ConstantTimeCompare_same].
  unfold ConstantTimeCompare.
  destruct (Nat.eqb_spec (length x) (length y)) as [Hlen | ]; [| discriminate].
  cbn [negb].
  destruct (ConstantTimeCompare_loop_spec x y 0%N Hlen) as [Hb Hz]; [reflexivity |].
  destruct (N.eq_dec (ConstantTimeCompare_loop x y 0) 0%N) as [E | E].
  - intros _. now apply Hz.
  - unfold ConstantTimeByteEq. rewrite N.lxor_0_r.
    change (2 ^ 8)%N with 256%N in Hb.
    rewrite Z.mod_small by lia.
    rewrite Z.shiftr_div_pow2 by lia.
    rewrite Z.div_small by lia. discriminate.
Qed.

(** ** Splitting a credential *)

Lemma Cut_credential (keyID secret : string) :
  ContainsRune keyID "." = false ->
  Cut (keyID +:+ "." +:+ secret) "." = (keyID, secret, true).
Proof.
  induction keyID as [|c keyID IH]; intros Hdot.
  - reflexivity.
  - cbn [ContainsRune] in Hdot. apply orb_false_iff in Hdot as [Hc Hdot].
    rewrite append_cons. cbn [Cut HasPrefix]. rewrite Ascii.eqb_sym, Hc.
    cbn [andb]. now rewrite (IH Hdot).
Qed.

(** ** Validation *)

Lemma GetAccessKey_found (selectors : list (SelectorFunc AccessKey)) (tx tx' : Txn)
    (t : AccessKey) :
  GetAccessKey selectors tx = (inr t, tx') ->
  tx' = tx
  /\ In (Values t) (access_keys (db tx))
  /\ Secret t = ""%string
  /\ DeletedAt t = None
  /\ forallb (fun sel => sel t) selectors = true.
Proof.
  unfold GetAccessKey.
  destruct (List.find _ _) as [a|] eqn:Hf; [| discriminate].
  intros [= -> ->]. apply find_some in Hf as [Hin Hp].
  apply andb_true_iff in Hp as [Hlive Hsel]. apply bool_decide_eq_true in Hlive.
  apply list_elem_of_In, list_elem_of_omap in Hin as (row & Hrow & Hscan).
  apply Scan_Some in Hscan as [-> Hsec]. apply list_elem_of_In in Hrow. auto.
Qed.

(** What validation does once the credential splits, the key is found and
    the secret is the right one. *)
Lemma ValidateAccessKey_checked (env : Env) (tx : Txn) (authnKey keyID secret : string)
    (t : AccessKey) :
  Cut authnKey "." = (keyID, secret, true) ->
  GetAccessKey [ByKeyID keyID] tx = (inr t, tx) ->
  SecretChecksum t = secretChecksum secret ->
  ValidateAccessKey env authnKey tx
  = if Time_After (Now env 0) (ExpiresAt t) then (inl ErrAccessKeyExpired, tx)
    else if negb (Time_IsZero (ExtensionDeadline t)) then
      if Time_After (Now env 1) (ExtensionDeadline t)
      then (inl ErrAccessKeyDeadlineExceeded, tx)
      else SaveAccessKey
             (set_ExtensionDeadline (Time_Add (Now env 2) (Extension t)) t) tx
    else (inr t, tx).
Proof.
  intros Hcut Hget Hsum. unfold ValidateAccessKey. rewrite Hcut. cbn [negb].
  unfold and_then at 1. unfold wrapping. rewrite Hget.
  rewrite Hsum, ConstantTimeCompare_same. cbn [Z.eqb Pos.eqb negb].
  destruct (Time_After (Now env 0) (ExpiresAt t)); [reflexivity |].
  destruct (negb (Time_IsZero (ExtensionDeadline t))); [| reflexivity].
  destruct (Time_After (Now env 1) (ExtensionDeadline t)); reflexivity.
Qed.

(** C5: once the time of the call is after [ExpiresAt], validating a
    well-formed credential with the correct secret fails with the expired
    error, whatever [Extension] and [ExtensionDeadline] are, and the store is
    left as it was. *)
Theorem C5_expired_regardless_of_extension (env : Env) (tx : Txn)
    (authnKey keyID secret : string) (t : AccessKey) :
  Cut authnKey "." = (keyID, secret, true) ->
  GetAccessKey [ByKeyID keyID] tx = (inr t, tx) ->
  SecretChecksum t = secretChecksum secret ->
  ExpiresAt t < Now env 0 ->
  ValidateAccessKey env authnKey tx = (inl ErrAccessKeyExpired, tx).
Proof.
  intros Hcut Hget Hsum Hexp.
  rewrite (ValidateAccessKey_checked env tx authnKey keyID secret t Hcut Hget Hsum).
  unfold Time_After. apply Z.ltb_lt in Hexp. now rewrite Hexp.
Qed.

(** Updating the record of an ID keeps it the answer of the lookup that
    found it. *)
Lemma find_after_update (P : AccessKey -> bool) (rows : list (list any))
    (t t' : AccessKey) :
  List.find P (omap Scan rows) = Some t ->
  ID t' = ID t -> P (set_Secret "" t') = true ->
  List.find P (omap Scan
           ((fun row => if has_ID (ID t') row then Values t' else row) <$> rows))
  = Some (set_Secret "" t').
Proof.
  intros Hf Hid Hp. induction rows as [|row rows IH]; [discriminate |].
  cbn [fmap list_fmap omap list_omap] in *. unfold has_ID at 1.
  destruct (Scan row) as [a|] eqn:Hs.
  - destruct (Z.eqb_spec (ID a) (ID t')) as [Ha | Ha].
    + rewrite Scan_Values. cbn [List.find]. now rewrite Hp.
    + rewrite Hs. cbn [List.find] in *. destruct (P a).
      * injection Hf as ->. congruence.
      * auto.
  - rewrite Hs. auto.
Qed.

Lemma existsb_has_ID (rows : list (list any)) (t : AccessKey) :
  In (Values t) rows -> existsb (has_ID (ID t)) rows = true.
Proof.
  intros Hin. apply existsb_exists. exists (Values t). split; [exact Hin |].
  unfold has_ID. rewrite Scan_Values. destruct t; apply Z.eqb_refl.
Qed.

Lemma set_Secret_scanned (t : AccessKey) : Secret t = ""%string -> set_Secret "" t = t.
Proof. destruct t; cbn. now intros ->. Qed.

(** Saving a record that was read from the store updates its row in place. *)
Lemma SaveAccessKey_update (t t' : AccessKey) (tx : Txn) :
  In (Values t) (access_keys (db tx)) -> ID t' = ID t -> Secret t' = ""%string ->
  SaveAccessKey t' tx
  = (inr t',
     with_access_keys
       ((fun row => if has_ID (ID t') row then Values t' else row)
          <$> access_keys (db tx)) tx).
Proof.
  intros Hin Hid Hsec. unfold SaveAccessKey, and_then, save, ret.
  rewrite Hsec. cbn [String.eqb negb].
  now rewrite Hid, (existsb_has_ID _ t Hin).
Qed.


Lemma C5_witness :
  ValidateAccessKey (sample_env 2070) sample_credential sample_tx1
  = (inl ErrAccessKeyExpired, sample_tx1).
Proof.
  apply (C5_expired_regardless_of_extension (sample_env 2070) sample_tx1
           sample_credential "k3yIDk3yID" "abcdefghijklmnopqrstuvwx" sample_stored).
  - vm_compute. reflexivity.
  - vm_compute. reflexivity.
  - vm_compute. reflexivity.
  - vm_compute. reflexivity.
Defined.


(** ** Creation *)

Section CreateFacts.
Variable AccessKeyKeyLength AccessKeySecretLength : nat.
Variable ID_String : uid_ID -> string.

Let Create := CreateAccessKey AccessKeyKeyLength AccessKeySecretLength ID_String.

Ltac split_if :=
  match goal with
  | |- context [if ?b then _ else _] => destruct b eqn:?
  | |- context [match ?x with inl _ => _ | inr _ => _ end] => destruct x eqn:?
  | |- context [match ?x with Some _ => _ | None => _ end] => destruct x eqn:?
  end.

(** What a successful creation has checked, set and persisted. *)
Lemma CreateAccessKey_ok (env : Env) (accessKey created : AccessKey) (tx tx' : Txn)
    (body : string) :
  Create env accessKey tx = (inr (body, created), tx') ->
  IssuedFor accessKey <> 0 /\ ProviderID accessKey <> 0
  /\ IssuedFor created = IssuedFor accessKey
  /\ DeletedAt created = DeletedAt accessKey
  /\ Extension created = Extension accessKey
  /\ ExtensionDeadline created = ExtensionDeadline accessKey
  /\ KeyID created
     = (if String.eqb (KeyID accessKey) "" then MathRandom env AccessKeyKeyLength
        else KeyID accessKey)
  /\ String.length (KeyID created) = AccessKeyKeyLength
  /\ (if String.eqb (Secret accessKey) ""
      then CryptoRandom env AccessKeySecretLength = inr (Secret created)
      else Secret created = Secret accessKey)
  /\ String.length (Secret created) = AccessKeySecretLength
  /\ SecretChecksum created = secretChecksum (Secret created)
  /\ ExpiresAt created
     = (if Time_IsZero (ExpiresAt accessKey) then Time_Add (Now env 0) (Hour * 12)
        else ExpiresAt accessKey)
  /\ OrganizationID created = OrganizationID_of tx
  /\ body = (KeyID created +:+ "." +:+ Secret created)%string
  /\ tx' = with_access_keys (access_keys (db tx) ++ [Values created]) tx.
Proof.
  unfold Create, CreateAccessKey, and_then, lift, ret, fail, wrapping, insert, GetIdentity.
  repeat (split_if; cbn [negb] in *; try discriminate);
    intros [= <- <- <-]; cbn;
    repeat match goal with
           | H : (_ =? _)%nat = true |- _ => apply Nat.eqb_eq in H
           | H : negb _ = false |- _ => apply negb_false_iff in H
           | H : (_ =? 0) = false |- _ => apply Z.eqb_neq in H
           end;
    cbn in *; repeat split; auto; congruence.
Qed.

End CreateFacts.

Lemma find_app {A} (f : A -> bool) (l1 l2 : list A) :
  List.find f (l1 ++ l2)
  = match List.find f l1 with
    | Some x => Some x
    | None => List.find f l2
    end.
Proof.
  induction l1 as [|x l1 IH]; [reflexivity |].
  cbn [app List.find]. now destruct (f x).
Qed.

Lemma find_none_iff {A} (f : A -> bool) (l : list A) :
  (forall x, In x l -> f x = false) -> List.find f l = None.
Proof.
  induction l as [|x l IH]; intros Hall; [reflexivity |].
  cbn [List.find]. rewrite (Hall x) by now left.
  apply IH. intros y Hy. apply Hall. now right.
Qed.

Lemma has_ID_Values (a : AccessKey) : has_ID (ID a) (Values a) = true.
Proof. unfold has_ID. rewrite Scan_Values. destruct a; apply Z.eqb_refl. Qed.

(** After [save], the rows of that ID are the row of the record, and there
    is one. *)
Lemma save_rows (a : AccessKey) (tx : Txn) :
  exists tx', save a tx = (inr tt, tx')
    /\ In (Values a) (access_keys (db tx'))
    /\ (forall row, In row (access_keys (db tx')) ->
          has_ID (ID a) row = true -> row = Values a).
Proof.
  unfold save. eexists. split; [reflexivity |].
  cbn [with_access_keys db access_keys].
  destruct (existsb (has_ID (ID a)) (access_keys (db tx))) eqn:E.
  - apply existsb_exists in E as (row0 & Hin0 & Hid0). split.
    + apply in_map_iff. exists row0. now rewrite Hid0.
    + intros row Hin Hid. apply in_map_iff in Hin as (r & <- & Hr).
      destruct (has_ID (ID a) r) eqn:Er; [reflexivity | congruence].
  - split.
    + apply in_or_app. right. now left.
    + intros row Hin Hid. apply in_app_or in Hin as [Hin | [<- | []]]; [| reflexivity].
      assert (existsb (has_ID (ID a)) (access_keys (db tx)) = true)
        by (apply existsb_exists; eauto).
      congruence.
Qed.

(** C7: an access key created, or saved with a non-empty secret, is stored
    with [SecretChecksum] equal to the SHA-256 digest of its secret, in the
    column [secret_checksum]; no persisted column is named [secret], the row
    has one value per column, and it does not depend on the plaintext
    secret field. *)
Theorem C7_secret_checksum_stored (AccessKeyKeyLength AccessKeySecretLength : nat)
    (ID_String : uid_ID -> string) :
  (forall env accessKey created tx tx' body,
     CreateAccessKey AccessKeyKeyLength AccessKeySecretLength ID_String env accessKey tx
     = (inr (body, created), tx') ->
     (Secret accessKey <> ""%string -> Secret created = Secret accessKey)
     /\ SecretChecksum created = sha256.Sum256 (list_byte_of_string (Secret created))
     /\ access_keys (db tx') = access_keys (db tx) ++ [Values created]
     /\ Values created !! 12%nat
        = Some (VBytes (sha256.Sum256 (list_byte_of_string (Secret created)))))
  /\ (forall key tx, Secret key <> ""%string ->
        let digest := sha256.Sum256 (list_byte_of_string (Secret key)) in
        exists tx',
          SaveAccessKey key tx = (inr (set_SecretChecksum digest key), tx')
          /\ In (Values (set_SecretChecksum digest key)) (access_keys (db tx'))
          /\ (forall row, In row (access_keys (db tx')) ->
                has_ID (ID key) row = true ->
                row !! 12%nat = Some (VBytes digest)))
  /\ Columns !! 12%nat = Some "secret_checksum"%string
  /\ ~ In "secret"%string Columns
  /\ (forall a, length (Values a) = length Columns)
  /\ (forall a s, Values (set_Secret s a) = Values a).
Proof.
  split; [| split; [| repeat split]].
  - intros env accessKey created tx tx' body Hc.
    apply CreateAccessKey_ok in Hc
      as (_ & _ & _ & _ & _ & _ & _ & _ & Hsec & _ & Hsum & _ & _ & _ & ->).
    repeat split.
    + intros Hne. apply String.eqb_neq in Hne. now rewrite Hne in Hsec.
    + exact Hsum.
    + cbn. now rewrite Hsum.
  - intros key tx Hne digest. unfold SaveAccessKey.
    apply String.eqb_neq in Hne. rewrite Hne. cbn [negb].
    destruct (save_rows (set_SecretChecksum (secretChecksum (Secret key)) key) tx)
      as (tx' & Hsave & Hin & Hrows).
    exists tx'. unfold and_then, ret. rewrite Hsave. repeat split.
    + exact Hin.
    + intros row Hrow Hid. now rewrite (Hrows row Hrow Hid).
  - intros Hin. cbn in Hin. repeat destruct Hin as [Hin | Hin]; discriminate || auto.
Qed.

Lemma C7_witness :
  SecretChecksum sample_stored
  = sha256.Sum256 (list_byte_of_string "abcdefghijklmnopqrstuvwx")
  /\ access_keys (db sample_tx1) = [Values sample_stored].
Proof.
  destruct (C7_secret_checksum_stored 10 24 sample_ID_String) as [Hcreate _].
  destruct (Hcreate (sample_env 1000) sample_key
              (set_Secret "abcdefghijklmnopqrstuvwx" sample_stored)
              sample_tx sample_tx1 sample_credential)
    as (_ & Hsum & Hrows & _).
  - vm_compute. reflexivity.
  - split; [exact Hsum | exact Hrows].
Defined.

(** ** Round trip *)

(** C6 (as stated, refuted): creation accepts these parameters (issuedFor
    and providerID set, key-id and secret of the fixed lengths 10 and 24),
    and validating the credential it returns, at the time of creation, fails:
    the credential is cut at the first dot, inside the key-id. *)
Lemma C6_dotted_key_id_not_found :
  let r := CreateAccessKey 10 24 sample_ID_String (sample_env 1000) dotted_key sample_tx in
  (exists created,
     fst r = inr ("abcde.fghi.abcdefghijklmnopqrstuvwx"%string, created))
  /\ fst (ValidateAccessKey (sample_env 1000)
            "abcde.fghi.abcdefghijklmnopqrstuvwx" (snd r))
     = inl (Errorf_w "access_key.go:169" "" ErrNotFound
              ": could not get access key from database, it may not exist").
Proof. split; [eexists |]; vm_compute; reflexivity. Qed.

Section RoundTrip.
Variable AccessKeyKeyLength AccessKeySecretLength : nat.
Variable ID_String : uid_ID -> string.

(** C6 (amended): for every parameter set creation accepts, for a key not
    created as deleted, whose key-id holds no dot and is not the key-id of a
    live key already stored, validating the returned credential
    ["{KeyID}.{Secret}"] at a time not after the expiry, and not after the
    extension deadline if there is one, succeeds and returns a record whose
    [IssuedFor] is the identity the key was created for. *)
Theorem C6_round_trip (env env' : Env) (accessKey created : AccessKey)
    (tx tx' : Txn) (body : string) :
  CreateAccessKey AccessKeyKeyLength AccessKeySecretLength ID_String env accessKey tx
  = (inr (body, created), tx') ->
  DeletedAt accessKey = None ->
  ContainsRune (KeyID created) "." = false ->
  (forall a, In a (omap Scan (access_keys (db tx))) ->
             DeletedAt a = None -> KeyID a <> KeyID created) ->
  Now env' 0 <= ExpiresAt created ->
  (ExtensionDeadline created = 0 \/ Now env' 1 <= ExtensionDeadline created) ->
  body = (KeyID created +:+ "." +:+ Secret created)%string
  /\ exists t tx'',
       ValidateAccessKey env' body tx' = (inr t, tx'')
       /\ IssuedFor t = IssuedFor accessKey
       /\ KeyID t = KeyID created.
Proof.
  intros Hc Hlive Hdot Hfresh Hexp Hdl.
  apply CreateAccessKey_ok in Hc
    as (_ & _ & Hfor & Hdel & _ & _ & _ & _ & _ & _ & Hsum & _ & _ & -> & ->).
  split; [reflexivity |].
  set (t := set_Secret "" created).
  assert (Hget : GetAccessKey [ByKeyID (KeyID created)]
                   (with_access_keys (access_keys (db tx) ++ [Values created]) tx)
                 = (inr t, with_access_keys (access_keys (db tx) ++ [Values created]) tx)).
  { unfold GetAccessKey. cbn [with_access_keys db access_keys].
    rewrite omap_app, find_app, find_none_iff.
    - cbn [omap list_omap]. rewrite Scan_Values. cbn [List.find].
      fold t. replace (DeletedAt t) with (DeletedAt created) by reflexivity.
      rewrite Hdel, Hlive. unfold ByKeyID. cbn [forallb].
      replace (KeyID t) with (KeyID created) by reflexivity.
      rewrite String.eqb_refl. reflexivity.
    - intros a Hin. destruct (bool_decide (DeletedAt a = None)) eqn:Ed; [| reflexivity].
      apply bool_decide_eq_true in Ed. cbn [andb forallb]. unfold ByKeyID.
      rewrite (proj2 (String.eqb_neq _ _) (Hfresh a Hin Ed)). reflexivity. }
  rewrite (ValidateAccessKey_checked env' _ _ (KeyID created) (Secret created) t
             (Cut_credential _ _ Hdot) Hget Hsum).
  unfold Time_After.
  replace (ExpiresAt t <? Now env' 0) with false by (symmetry; apply Z.ltb_ge; exact Hexp).
  replace (ExtensionDeadline t) with (ExtensionDeadline created) by reflexivity.
  unfold Time_IsZero. destruct (Z.eqb_spec (ExtensionDeadline created) 0) as [Hz | Hz].
  - cbn [negb]. exists t. eexists. repeat split. exact Hfor.
  - cbn [negb]. destruct Hdl as [Hdl | Hdl]; [contradiction |].
    replace (ExtensionDeadline created <? Now env' 1) with false
      by (symmetry; apply Z.ltb_ge; exact Hdl).
    destruct (GetAccessKey_found _ _ _ _ Hget) as (_ & Hin & Hsec & _).
    erewrite (SaveAccessKey_update t); [| exact Hin | reflexivity | exact Hsec].
    eexists. eexists. repeat split. exact Hfor.
Qed.

End RoundTrip.

Lemma C6_witness :
  exists t tx'',
    ValidateAccessKey (sample_env 1000) sample_credential sample_tx1 = (inr t, tx'')
    /\ IssuedFor t = 7
    /\ KeyID t = "k3yIDk3yID"%string.
Proof.
  apply (C6_round_trip 10 24 sample_ID_String (sample_env 1000) (sample_env 1000)
           sample_key (set_Secret "abcdefghijklmnopqrstuvwx" sample_stored)
           sample_tx sample_tx1 sample_credential).
  - vm_compute. reflexivity.
  - reflexivity.
  - vm_compute. reflexivity.
  - intros a [].
  - vm_compute. discriminate.
  - right. vm_compute. discriminate.
Defined.

(** ** Deletion *)

Lemma DeleteAccessKeys_query_cases (env : Env) (org : uid_ID)
    (opts : DeleteAccessKeysOptions) :
  DeleteAccessKeys_query env org opts
  = if negb (opt_ByID opts =? 0) then
      inr (delete_query (Now env 0) "id = ?" (opt_ByID opts) org)
    else if negb (opt_ByUserID opts =? 0) then
      inr (delete_query (Now env 0) "issued_for = ?" (opt_ByUserID opts) org)
    else if negb (opt_ByProviderID opts =? 0) then
      inr (delete_query (Now env 0) "provider_id = ?" (opt_ByProviderID opts) org)
    else inl (errorString "access_key.go:153" "DeleteAccessKeys requires an ID to delete").
Proof.
  unfold DeleteAccessKeys_query.
  destruct (negb (opt_ByID opts =? 0)); [reflexivity |].
  destruct (negb (opt_ByUserID opts =? 0)); [reflexivity |].
  destruct (negb (opt_ByProviderID opts =? 0)); reflexivity.
Qed.

Lemma DeleteAccessKeys_by_query (env : Env) (opts : DeleteAccessKeysOptions) (tx : Txn) :
  DeleteAccessKeys env opts tx
  = match DeleteAccessKeys_query env (OrganizationID_of tx) opts with
    | inl err => (inl err, tx)
    | inr query =>
        match Exec (query_String query) (Args query) tx with
        | (inl err, tx') => (inl err, tx')
        | (inr _, tx') => (inr tt, tx')
        end
    end.
Proof.
  unfold DeleteAccessKeys, and_then, get_tx, lift, ret.
  destruct (DeleteAccessKeys_query env (OrganizationID_of tx) opts); [reflexivity |].
  now destruct (Exec _ _ tx) as [[err | n] tx'].
Qed.

Lemma Exec_soft_delete (stmt col : string) (i : nat) (now : Time) (v org : any) (tx : Txn) :
  words stmt = soft_delete_statement col ->
  index_of col Columns = Some i ->
  Exec stmt [VTime now; v; org] tx
  = (inr (Z.of_nat (length (filter (fun row => selected i 9 v org row)
                              (access_keys (db tx))))),
     with_access_keys
       ((fun row => if selected i 9 v org row
                    then <[1%nat := VNullTime (Some now)]> row else row)
          <$> access_keys (db tx)) tx).
Proof.
  intros Hw Hi. unfold Exec. rewrite Hw.
  change (default ""%string (soft_delete_statement col !! 7%nat)) with col.
  rewrite Hi.
  change (index_of "deleted_at" Columns) with (Some 1%nat).
  change (index_of "organization_id" Columns) with (Some 9%nat).
  now rewrite bool_decide_eq_true_2.
Qed.







(** ** Grants *)

Lemma groups_of_spec (d : DB) (subject g : PolymorphicID) :
  g ∈ groups_of d subject
  <-> exists u gid, subject = PolyIdentity u
                    /\ In (u, gid) (identities_groups d) /\ g = PolyGroup gid.
Proof.
  unfold groups_of. destruct subject as [u | x].
  - rewrite list_elem_of_fmap. split.
    + intros ([u' gid] & -> & Hin). apply list_elem_of_filter in Hin as [Hu Hin].
      cbn in Hu. subst u'. exists u, gid. repeat split. now apply list_elem_of_In.
    + intros (u' & gid & [= <-] & Hin & ->). exists (u, gid). split; [reflexivity |].
      apply list_elem_of_filter. split; [reflexivity | now apply list_elem_of_In].
  - split; [intros Hin; inversion Hin | intros (u & gid & [=] & _)].
Qed.

Lemma grant_matches_spec (tx : Txn) (subject : PolymorphicID) (resource : string)
    (privileges : list string) (g : Grant) :
  In g (grants (db tx)) ->
  grant_matches tx (Can_options subject resource privileges) g = true
  <-> authorizes tx subject resource privileges g.
Proof.
  intros Hin. unfold grant_matches, authorizes. cbn [Can_options BySubject
    IncludeInheritedFromGroups ByResource ByPrivileges].
  rewrite !andb_true_iff, !bool_decide_eq_true, Z.eqb_eq, String.eqb_eq.
  rewrite elem_of_cons, groups_of_spec, list_elem_of_In. tauto.
Qed.

(** C8: [Can] answers true exactly when at least one non-deleted grant of
    the tenant has for subject the given subject or a group the subject
    belongs to, the given resource, and one of the given privileges; so a
    member of a group that holds the privilege passes with no grant of their
    own; and the query is bounded to limit 1. *)
Theorem C8_Can_iff_grant (tx : Txn) (subject : PolymorphicID) (resource : string)
    (privileges : list string) :
  (exists ok,
     Can subject resource privileges tx = (inr ok, tx)
     /\ (ok = true <-> exists g, authorizes tx subject resource privileges g))
  /\ (forall u gid g P,
        subject = PolyIdentity u -> In (u, gid) (identities_groups (db tx)) ->
        In g (grants (db tx)) -> grant_DeletedAt g = None ->
        grant_OrganizationID g = OrganizationID_of tx ->
        Subject g = PolyGroup gid -> Resource g = resource -> Privilege g = P ->
        In P privileges ->
        Can subject resource privileges tx = (inr true, tx))
  /\ opt_Pagination (Can_options subject resource privileges)
     = Some {| Page := 0; Limit := 1 |}
  /\ (forall l tx', ListGrants (Can_options subject resource privileges) tx = (inr l, tx') ->
        (length l <= 1)%nat).
Proof.
  assert (Hcan : exists ok,
     Can subject resource privileges tx = (inr ok, tx)
     /\ (ok = true <-> exists g, authorizes tx subject resource privileges g)).
  { unfold Can, and_then, wrapping, ListGrants, ret. eexists. split; [reflexivity |].
    cbn [Can_options opt_Pagination paginate Limit Z.ltb Z.compare Z.to_nat Pos.to_nat
         Pos.iter_op Nat.add].
    set (l := filter _ (grants (db tx))).
    assert (Hl : forall g, g ∈ l <-> authorizes tx subject resource privileges g).
    { intros g. unfold l. rewrite list_elem_of_filter. split.
      - intros [Hm Hin]. apply list_elem_of_In in Hin. now apply grant_matches_spec.
      - intros Ha. pose proof Ha as [Hin _]. split.
        + now apply grant_matches_spec.
        + now apply list_elem_of_In. }
    destruct l as [|g0 l'].
    - split; [discriminate |]. intros [g Hg]. apply Hl in Hg. inversion Hg.
    - split; [| reflexivity]. intros _. exists g0. apply Hl. now left. }
  split; [exact Hcan |]. split; [| split; [reflexivity |]].
  - intros u gid g P Hs Hmem Hin Hlive Horg Hsub Hres Hp HP.
    destruct Hcan as (ok & Hrun & Hiff). rewrite Hrun.
    replace ok with true; [reflexivity |]. symmetry. apply Hiff.
    exists g. repeat split; auto; [right; eauto | congruence].
  - intros l tx'. unfold ListGrants. intros [= <- _].
    cbn [Can_options opt_Pagination paginate Limit Z.ltb Z.compare Z.to_nat Pos.to_nat
         Pos.iter_op Nat.add].
    rewrite length_take. lia.
Qed.

Lemma C8_witness :
  Can (PolyIdentity 7) "infra" ["admin"%string] sample_tx = (inr true, sample_tx).
Proof.
  destruct (C8_Can_iff_grant sample_tx (PolyIdentity 7) "infra" ["admin"%string])
    as (_ & Hinherit & _).
  apply (Hinherit 7 9 {| grant_ID := 11; Subject := PolyGroup 9;
                         Privilege := "admin"; Resource := "infra";
                         grant_OrganizationID := 1;
                         grant_DeletedAt := None |} "admin"%string);
    try reflexivity; now left.
Defined.

(** ** Registration *)


(** Routes that opt out leave the interface description as it was. *)
Lemma add_omitFromDocs {Version : Type} `{SemVer Version} {Req Res : Type}
    (path_Join : string -> string -> string) (B : @Binding Req)
    (marshal : Res -> string) (a : API Version) (r : RouterGroup Version)
    (rt : @route Req Res) :
  omitFromDocs rt = true -> fst (add path_Join B marshal a r rt) = a.
Proof. intros Ho. unfold add. cbn. now rewrite Ho. Qed.

(** ** SHA-256 test vectors *)

Example Sum256_abc :
  Byte.to_N <$> sha256.Sum256 (list_byte_of_string "abc")
  = [0xba; 0x78; 0x16; 0xbf; 0x8f; 0x01; 0xcf; 0xea; 0x41; 0x41; 0x40; 0xde;
     0x5d; 0xae; 0x22; 0x23; 0xb0; 0x03; 0x61; 0xa3; 0x96; 0x17; 0x7a; 0x9c;
     0xb4; 0x10; 0xff; 0x61; 0xf2; 0x00; 0x15; 0xad]%N.
Proof. vm_compute. reflexivity. Qed.

Example Sum256_empty_prefix :
  take 4 (Byte.to_N <$> sha256.Sum256 []) = [0xe3; 0xb0; 0xc4; 0x42]%N.
Proof. vm_compute. reflexivity. Qed.

Example Sum256_two_blocks :
  take 4 (Byte.to_N <$> sha256.Sum256 (list_byte_of_string
     "abcdbcdecdefdefgefghfghighijhijkijkljklmklmnlmnomnopnopq"))
  = [0x24; 0x8d; 0x6a; 0x61]%N.
Proof. vm_compute. reflexivity. Qed.

Lemma Sum256_length (data : list byte) : length (sha256.Sum256 data) = 32%nat.
Proof.
  unfold sha256.Sum256. rewrite length_fmap.
  assert (Hw : forall st block, length st = 8%nat ->
            length (sha256.compress st block) = 8%nat).
  { intros st block Hst. unfold sha256.compress.
    assert (Hr : forall kws st', length st' = 8%nat ->
              length (foldl sha256.round st' kws) = 8%nat).
    { induction kws as [|kw kws IH]; intros st' Hst'; [exact Hst' |].
      cbn [foldl]. apply IH.
      do 9 (destruct st' as [|? st']; try discriminate). reflexivity. }
    specialize (Hr (zip sha256.round_constants (sha256.schedule block)) st Hst).
    revert Hr. generalize (foldl sha256.round st
      (zip sha256.round_constants (sha256.schedule block))).
    intros l Hl.
    do 9 (destruct st as [|? st]; try discriminate).
    do 9 (destruct l as [|? l]; try discriminate). reflexivity. }
  assert (Hd : length (sha256.digest_words (Byte.to_N <$> data)) = 8%nat).
  { unfold sha256.digest_words.
    generalize (sha256.chunks 64
      (length (sha256.padded (Byte.to_N <$> data)) / 64)
      (sha256.padded (Byte.to_N <$> data))).
    intros blocks.
    assert (Hf : forall st, length st = 8%nat ->
              length (foldl sha256.compress st blocks) = 8%nat).
    { induction blocks as [|b blocks IH]; intros st Hst; [exact Hst |].
      cbn [foldl]. apply IH, Hw, Hst. }
    apply Hf. reflexivity. }
  revert Hd. generalize (sha256.digest_words (Byte.to_N <$> data)). intros ws Hws.
  do 9 (destruct ws as [|? ws]; try discriminate). reflexivity.
Qed.

(** Unwrapping follows the chain that [reaches] describes. *)
Lemma reaches_Unwrap (err inner target : error) :
  Unwrap err = Some inner -> reaches inner target -> reaches err target.
Proof.
  destruct err as [p s | p msg e | r o rs]; try discriminate.
  intros [= ->] Hr. now constructor.
Qed.

(** A wrong secret is rejected, whatever the times. *)
Lemma ValidateAccessKey_wrong_secret (env : Env) (tx : Txn)
    (authnKey keyID secret : string) (t : AccessKey) :
  Cut authnKey "." = (keyID, secret, true) ->
  GetAccessKey [ByKeyID keyID] tx = (inr t, tx) ->
  SecretChecksum t <> secretChecksum secret ->
  ValidateAccessKey env authnKey tx
  = (inl (errorString "access_key.go:175" "access key invalid secret"), tx).
Proof.
  intros Hcut Hget Hsum. unfold ValidateAccessKey. rewrite Hcut. cbn [negb].
  unfold and_then at 1. unfold wrapping. rewrite Hget.
  destruct (Z.eqb_spec (ConstantTimeCompare (SecretChecksum t) (secretChecksum secret)) 1)
    as [E | E]; [| reflexivity].
  apply ConstantTimeCompare_eq in E. contradiction.
Qed.

(** A credential without a dot is a format error, and the store is not
    consulted. *)
Lemma ValidateAccessKey_format (env : Env) (tx : Txn) (authnKey : string) :
  ContainsRune authnKey "." = false ->
  ValidateAccessKey env authnKey tx
  = (inl (errorString "access_key.go:164" "invalid access key format"), tx).
Proof.
  intros Hdot. unfold ValidateAccessKey.
  assert (Hcut : Cut authnKey "." = (authnKey, ""%string, false)).
  { induction authnKey as [|c s IH]; [reflexivity |].
    cbn [ContainsRune] in Hdot. apply orb_false_iff in Hdot as [Hc Hs].
    cbn [Cut HasPrefix]. rewrite Ascii.eqb_sym, Hc. cbn [andb].
    now rewrite (IH Hs). }
  now rewrite Hcut.
Qed.

(** A key that was soft-deleted is no longer found by its key-id. *)
Lemma GetAccessKey_skips_deleted (keyID : string) (tx : Txn) :
  (forall a, In a (omap Scan (access_keys (db tx))) ->
             KeyID a = keyID -> DeletedAt a <> None) ->
  GetAccessKey [ByKeyID keyID] tx = (inl ErrNotFound, tx).
Proof.
  intros Hdel. unfold GetAccessKey. rewrite find_none_iff; [reflexivity |].
  intros a Hin. unfold ByKeyID. cbn [forallb].
  destruct (String.eqb_spec (KeyID a) keyID) as [Hk | Hk].
  - rewrite bool_decide_eq_false_2; [reflexivity | now apply Hdel].
  - now rewrite andb_false_r.
Qed.

(** * Further properties of the embedded code *)

(** ** Validation: what an accepted credential guarantees *)

(** Inversion of a successful validation, step by step. *)
Lemma ValidateAccessKey_inv (env : Env) (authnKey : string)
    (tx tx' : Txn) (t : AccessKey) :
  ValidateAccessKey env authnKey tx = (inr t, tx') ->
  exists keyID secret stored,
    Cut authnKey "." = (keyID, secret, true)
    /\ GetAccessKey [ByKeyID keyID] tx = (inr stored, tx)
    /\ DeletedAt stored = None
    /\ KeyID stored = keyID
    /\ SecretChecksum stored = sha256.Sum256 (list_byte_of_string secret)
    /\ Now env 0 <= ExpiresAt stored
    /\ ((ExtensionDeadline stored = 0 /\ t = stored /\ tx' = tx)
        \/ (ExtensionDeadline stored <> 0
            /\ Now env 1 <= ExtensionDeadline stored
            /\ t = set_ExtensionDeadline (Now env 2 + Extension stored) stored)).
Proof.
  unfold ValidateAccessKey.
  destruct (Cut authnKey ".") as [[keyID secret] ok] eqn:Hcut.
  destruct ok; cbn [negb]; [| discriminate].
  unfold and_then at 1. unfold wrapping.
  destruct (GetAccessKey [ByKeyID keyID] tx) as [[err | stored] tx0] eqn:Hget;
    [discriminate |].
  destruct (GetAccessKey_found _ _ _ _ Hget) as (-> & Hin & Hsec & Hlive & Hsel).
  cbn [forallb] in Hsel. rewrite andb_true_r in Hsel. unfold ByKeyID in Hsel.
  apply String.eqb_eq in Hsel.
  destruct (Z.eqb_spec (ConstantTimeCompare (SecretChecksum stored) (secretChecksum secret)) 1)
    as [Hsum | Hsum]; cbn [negb]; [| discriminate].
  apply ConstantTimeCompare_eq in Hsum.
  unfold Time_After, Time_IsZero, Time_Add.
  destruct (Z.ltb_spec (ExpiresAt stored) (Now env 0)) as [Hexp | Hexp]; [discriminate |].
  destruct (Z.eqb_spec (ExtensionDeadline stored) 0) as [Hz | Hz]; cbn [negb].
  - intros [= <- <-]. exists keyID, secret, stored. repeat split; auto.
  - destruct (Z.ltb_spec (ExtensionDeadline stored) (Now env 1)) as [Hd | Hd];
      [discriminate |].
    rewrite (SaveAccessKey_update stored
               (set_ExtensionDeadline (Now env 2 + Extension stored) stored)
               tx Hin eq_refl Hsec).
    intros [= <- <-]. exists keyID, secret, stored. repeat split; auto.
Qed.

(** A credential is accepted only if it splits at a dot, a live key is
    stored under the part before the dot, the stored checksum is the
    SHA-256 digest of the part after it, and the call is not after the
    expiry; then either the key has no extension deadline, and it is
    returned as stored with the store untouched, or the call is not after
    the deadline, and the deadline becomes the time of the call plus the
    extension. *)
Theorem ValidateAccessKey_accepts_only (env : Env) (authnKey : string)
    (tx tx' : Txn) (t : AccessKey) :
  ValidateAccessKey env authnKey tx = (inr t, tx') ->
  exists keyID secret stored,
    Cut authnKey "." = (keyID, secret, true)
    /\ GetAccessKey [ByKeyID keyID] tx = (inr stored, tx)
    /\ DeletedAt stored = None
    /\ KeyID stored = keyID
    /\ SecretChecksum stored = sha256.Sum256 (list_byte_of_string secret)
    /\ Now env 0 <= ExpiresAt stored
    /\ ((ExtensionDeadline stored = 0 /\ t = stored /\ tx' = tx)
        \/ (ExtensionDeadline stored <> 0
            /\ Now env 1 <= ExtensionDeadline stored
            /\ t = set_ExtensionDeadline (Now env 2 + Extension stored) stored)).
Proof. exact (ValidateAccessKey_inv env authnKey tx tx' t). Qed.

Lemma ValidateAccessKey_accepts_only_witness :
  exists keyID secret stored,
    Cut sample_credential "." = (keyID, secret, true)
    /\ GetAccessKey [ByKeyID keyID] sample_tx1 = (inr stored, sample_tx1)
    /\ SecretChecksum stored = sha256.Sum256 (list_byte_of_string secret)
    /\ 1010 <= ExpiresAt stored.
Proof.
  destruct (ValidateAccessKey_accepts_only (sample_env 1010) sample_credential
              sample_tx1
              (snd (ValidateAccessKey (sample_env 1010) sample_credential sample_tx1))
              (set_ExtensionDeadline 1070 sample_stored))
    as (keyID & secret & stored & H1 & H2 & _ & _ & H3 & H4 & _).
  - vm_compute. reflexivity.
  - exists keyID, secret, stored. repeat split; assumption.
Defined.



Lemma ValidateAccessKey_wrong_secret_witness :
  ValidateAccessKey (sample_env 1010) "k3yIDk3yID.abcdefghijklmnopqrstuvwy" sample_tx1
  = (inl (errorString "access_key.go:175" "access key invalid secret"), sample_tx1).
Proof.
  apply (ValidateAccessKey_wrong_secret (sample_env 1010) sample_tx1 _
           "k3yIDk3yID" "abcdefghijklmnopqrstuvwy" sample_stored).
  - vm_compute. reflexivity.
  - vm_compute. reflexivity.
  - vm_compute. discriminate.
Defined.

(** The lookup that finds no live key, as [ValidateAccessKey] reports it. *)
Lemma ValidateAccessKey_not_found (env : Env) (tx : Txn)
    (authnKey keyID secret : string) :
  Cut authnKey "." = (keyID, secret, true) ->
  (forall a, In a (omap Scan (access_keys (db tx))) ->
             KeyID a = keyID -> DeletedAt a <> None) ->
  exists err,
    ValidateAccessKey env authnKey tx = (inl err, tx)
    /\ errors_Is (Some err) ErrNotFound = true
    /\ Error err
       = (Error ErrNotFound
            +:+ ": could not get access key from database, it may not exist")%string.
Proof.
  intros Hcut Hnone. unfold ValidateAccessKey. rewrite Hcut. cbn [negb].
  unfold and_then at 1. unfold wrapping.
  rewrite (GetAccessKey_skips_deleted keyID tx Hnone).
  eexists. repeat split.
Qed.

(** When no live key is stored under the key-id of the credential, the
    error wraps the not-found error: it still matches it under [errors.Is],
    and its text is the text of the not-found error followed by the
    explanation. *)
Theorem ValidateAccessKey_unknown_key (env : Env) (tx : Txn)
    (authnKey keyID secret : string) :
  Cut authnKey "." = (keyID, secret, true) ->
  (forall a, In a (omap Scan (access_keys (db tx))) ->
             KeyID a = keyID -> DeletedAt a <> None) ->
  exists err,
    ValidateAccessKey env authnKey tx = (inl err, tx)
    /\ errors_Is (Some err) ErrNotFound = true
    /\ Error err
       = (Error ErrNotFound
            +:+ ": could not get access key from database, it may not exist")%string.
Proof. exact (ValidateAccessKey_not_found env tx authnKey keyID secret). Qed.

Lemma ValidateAccessKey_unknown_key_witness :
  exists err,
    ValidateAccessKey (sample_env 1010) "nosuchkey0.abcdefghijklmnopqrstuvwx" sample_tx1
    = (inl err, sample_tx1)
    /\ errors_Is (Some err) ErrNotFound = true.
Proof.
  destruct (ValidateAccessKey_unknown_key (sample_env 1010) sample_tx1
              "nosuchkey0.abcdefghijklmnopqrstuvwx" "nosuchkey0"
              "abcdefghijklmnopqrstuvwx") as (err & Hrun & His & _).
  - vm_compute. reflexivity.
  - intros a [<- | []]. vm_compute. discriminate.
  - exists err. split; assumption.
Defined.

(** ** Rows and records: the round trip *)

(** [ScanFields] reads back what [Values] wrote, column for column: a row
    scans into a record exactly when it is the row of that record, and the
    record read has no plaintext secret. *)
Theorem Scan_Values_round_trip (row : list any) (a : AccessKey) :
  Scan row = Some a <-> row = Values a /\ Secret a = ""%string.
Proof.
  split; [apply Scan_Some |].
  intros [-> Hsec]. rewrite Scan_Values. f_equal. now apply set_Secret_scanned.
Qed.

(** ** Successive validations *)

(** The three readings of the clock during one validation need not agree:
    the first is compared with the expiry, the second with the extension
    deadline, and the third is the one the new deadline is computed from.
    The new deadline is persisted: a later lookup reads it back. *)
Theorem ValidateAccessKey_slides (env : Env) (tx : Txn)
    (authnKey keyID secret : string) (t : AccessKey) :
  Cut authnKey "." = (keyID, secret, true) ->
  GetAccessKey [ByKeyID keyID] tx = (inr t, tx) ->
  SecretChecksum t = secretChecksum secret ->
  ExtensionDeadline t <> 0 ->
  Now env 0 <= ExpiresAt t ->
  Now env 1 <= ExtensionDeadline t ->
  exists tx',
    ValidateAccessKey env authnKey tx
    = (inr (set_ExtensionDeadline (Now env 2 + Extension t) t), tx')
    /\ GetAccessKey [ByKeyID keyID] tx'
       = (inr (set_ExtensionDeadline (Now env 2 + Extension t) t), tx').
Proof.
  intros Hcut Hget Hsum Hnz Hexp Hdl.
  rewrite (ValidateAccessKey_checked env tx authnKey keyID secret t Hcut Hget Hsum).
  destruct (GetAccessKey_found _ _ _ _ Hget) as (_ & Hin & Hsec & Hlive & Hsel).
  unfold Time_After, Time_IsZero, Time_Add.
  replace (ExpiresAt t <? Now env 0) with false by (symmetry; apply Z.ltb_ge; lia).
  replace (ExtensionDeadline t =? 0) with false by (symmetry; apply Z.eqb_neq; lia).
  replace (ExtensionDeadline t <? Now env 1) with false by (symmetry; apply Z.ltb_ge; lia).
  cbn [negb].
  set (t' := set_ExtensionDeadline (Now env 2 + Extension t) t).
  assert (Hsec' : Secret t' = ""%string) by exact Hsec.
  rewrite (SaveAccessKey_update t t' tx Hin eq_refl Hsec').
  eexists. split; [reflexivity |].
  unfold GetAccessKey at 1. cbn [db with_access_keys access_keys].
  unfold GetAccessKey in Hget.
  destruct (List.find _ (omap Scan (access_keys (db tx)))) as [a|] eqn:Hf;
    [| discriminate].
  injection Hget as ->.
  erewrite find_after_update; [| exact Hf | reflexivity |].
  - now rewrite (set_Secret_scanned t' Hsec').
  - rewrite (set_Secret_scanned t' Hsec'). apply andb_true_iff. split.
    + apply bool_decide_eq_true. exact Hlive.
    + exact Hsel.
Qed.

Lemma ValidateAccessKey_slides_witness :
  exists tx',
    ValidateAccessKey (sample_env 1010) sample_credential sample_tx1
    = (inr (set_ExtensionDeadline 1070 sample_stored), tx').
Proof.
  destruct (ValidateAccessKey_slides (sample_env 1010) sample_tx1 sample_credential
              "k3yIDk3yID" "abcdefghijklmnopqrstuvwx" sample_stored)
    as (tx' & Hrun & _).
  - vm_compute. reflexivity.
  - vm_compute. reflexivity.
  - vm_compute. reflexivity.
  - vm_compute. discriminate.
  - vm_compute. discriminate.
  - vm_compute. discriminate.
  - exists tx'. exact Hrun.
Defined.

(** The window slides: after a validation that moved the deadline to
    [d1], a validation whose readings are not after the expiry and not
    after [d1] succeeds too and moves the deadline again; a key that is used
    at least once per extension stays valid until its expiry. *)
Theorem ValidateAccessKey_twice (tx tx1 : Txn) (authnKey keyID secret : string)
    (stored t : AccessKey) (env1 env2 : Env) :
  Cut authnKey "." = (keyID, secret, true) ->
  GetAccessKey [ByKeyID keyID] tx = (inr stored, tx) ->
  ExtensionDeadline stored <> 0 ->
  ValidateAccessKey env1 authnKey tx = (inr t, tx1) ->
  Now env1 2 + Extension stored <> 0 ->
  Now env2 0 <= ExpiresAt stored ->
  Now env2 1 <= Now env1 2 + Extension stored ->
  t = set_ExtensionDeadline (Now env1 2 + Extension stored) stored
  /\ exists tx2,
       ValidateAccessKey env2 authnKey tx1
       = (inr (set_ExtensionDeadline (Now env2 2 + Extension stored) stored), tx2).
Proof.
  intros Hcut Hget Hnz Hrun Hnz' Hexp Hle.
  destruct (ValidateAccessKey_inv _ _ _ _ _ Hrun)
    as (k & s & st & Hcut' & Hget' & _ & _ & Hsum & Hexp1 & Hcase).
  rewrite Hcut in Hcut'. injection Hcut' as <- <-.
  rewrite Hget in Hget'. injection Hget' as <-.
  destruct Hcase as [(Hz & _) | (_ & Hd1 & ->)]; [contradiction |].
  split; [reflexivity |].
  destruct (ValidateAccessKey_slides env1 tx authnKey keyID secret stored
              Hcut Hget Hsum Hnz Hexp1 Hd1) as (tx1' & Hrun' & Hget1).
  rewrite Hrun in Hrun'. injection Hrun' as <-.
  set (stored1 := set_ExtensionDeadline (Now env1 2 + Extension stored) stored) in *.
  destruct (ValidateAccessKey_slides env2 tx1 authnKey keyID secret stored1
              Hcut Hget1 Hsum Hnz' Hexp Hle) as (tx2 & Hrun2 & _).
  exists tx2. rewrite Hrun2. destruct stored. reflexivity.
Qed.

Lemma ValidateAccessKey_twice_witness :
  exists tx2,
    ValidateAccessKey (sample_env 1065) sample_credential
      (snd (ValidateAccessKey (sample_env 1010) sample_credential sample_tx1))
    = (inr (set_ExtensionDeadline 1125 sample_stored), tx2).
Proof.
  destruct (ValidateAccessKey_twice sample_tx1
              (snd (ValidateAccessKey (sample_env 1010) sample_credential sample_tx1))
              sample_credential "k3yIDk3yID" "abcdefghijklmnopqrstuvwx"
              sample_stored (set_ExtensionDeadline 1070 sample_stored)
              (sample_env 1010) (sample_env 1065)) as (_ & tx2 & Hrun).
  - vm_compute. reflexivity.
  - vm_compute. reflexivity.
  - vm_compute. discriminate.
  - vm_compute. reflexivity.
  - vm_compute. discriminate.
  - vm_compute. discriminate.
  - vm_compute. discriminate.
  - exists tx2. exact Hrun.
Defined.

(** ** Creation: failures and defaults *)

Section CreateMore.
Variable AccessKeyKeyLength AccessKeySecretLength : nat.
Variable ID_String : uid_ID -> string.

Let Create := CreateAccessKey AccessKeyKeyLength AccessKeySecretLength ID_String.

Ltac split_create :=
  match goal with
  | |- context [if ?b then _ else _] => destruct b eqn:?
  | |- context [match ?x with inl _ => _ | inr _ => _ end] => destruct x eqn:?
  | |- context [match ?x with Some _ => _ | None => _ end] => destruct x eqn:?
  end.

(** A creation that fails persists nothing: the store is left as it was. *)
Theorem CreateAccessKey_failure_persists_nothing (env : Env) (accessKey : AccessKey)
    (tx tx' : Txn) (err : error) :
  Create env accessKey tx = (inl err, tx') -> tx' = tx.
Proof.
  unfold Create, CreateAccessKey, and_then, lift, ret, fail, wrapping, insert, GetIdentity.
  repeat (split_create; cbn [negb] in *; try discriminate);
    intros [= <- <-]; reflexivity.
Qed.

(** The checks, in the order they are made: the identity the key is issued
    for, the provider, the length of the key-id (the supplied one, or the
    generated one), the random source of the secret, the length of the
    secret. *)
Theorem CreateAccessKey_rejections (env : Env) (accessKey : AccessKey) (tx : Txn) :
  let keyID := if String.eqb (KeyID accessKey) ""
               then MathRandom env AccessKeyKeyLength else KeyID accessKey in
  (IssuedFor accessKey = 0 ->
   Create env accessKey tx
   = (inl (errorString "access_key.go:50" "issusedFor is required"), tx))
  /\ (IssuedFor accessKey <> 0 -> ProviderID accessKey = 0 ->
      Create env accessKey tx
      = (inl (errorString "access_key.go:52" "providerID is required"), tx))
  /\ (IssuedFor accessKey <> 0 -> ProviderID accessKey <> 0 ->
      String.length keyID <> AccessKeyKeyLength ->
      Create env accessKey tx
      = (inl (errorString "access_key.go:60" "invalid key length"), tx))
  /\ (forall cause,
        IssuedFor accessKey <> 0 -> ProviderID accessKey <> 0 ->
        String.length keyID = AccessKeyKeyLength ->
        Secret accessKey = ""%string ->
        CryptoRandom env AccessKeySecretLength = inl cause ->
        Create env accessKey tx = (inl cause, tx))
  /\ (IssuedFor accessKey <> 0 -> ProviderID accessKey <> 0 ->
      String.length keyID = AccessKeyKeyLength ->
      Secret accessKey <> ""%string ->
      String.length (Secret accessKey) <> AccessKeySecretLength ->
      Create env accessKey tx
      = (inl (errorString "access_key.go:73" "invalid secret length"), tx)).
Proof.
  intros keyID. unfold Create, CreateAccessKey. repeat split.
  - intros ->. reflexivity.
  - intros H1 ->. apply Z.eqb_neq in H1. now rewrite H1.
  - intros H1 H2 H3. apply Z.eqb_neq in H1, H2. rewrite H1, H2.
    subst keyID. destruct (String.eqb (KeyID accessKey) ""); cbn [KeyID set_KeyID];
      apply Nat.eqb_neq in H3; now rewrite H3.
  - intros cause H1 H2 H3 H4 H5. apply Z.eqb_neq in H1, H2. rewrite H1, H2.
    subst keyID. destruct (String.eqb (KeyID accessKey) ""); cbn [KeyID set_KeyID];
      apply Nat.eqb_eq in H3; rewrite H3; cbn [negb];
      unfold and_then, lift; cbn [Secret set_KeyID]; rewrite H4; cbn [String.eqb];
      now rewrite H5.
  - intros H1 H2 H3 H4 H5. apply Z.eqb_neq in H1, H2. rewrite H1, H2.
    apply String.eqb_neq in H4. apply Nat.eqb_neq in H5.
    subst keyID. destruct (String.eqb (KeyID accessKey) ""); cbn [KeyID set_KeyID];
      apply Nat.eqb_eq in H3; rewrite H3; cbn [negb];
      unfold and_then, ret; cbn [Secret set_KeyID]; rewrite H4;
      unfold set_KeyID; cbn [Secret]; now rewrite H5.
Qed.

(** The default name: a key created without a name is named after the live
    identity of the tenant it is issued for, followed by a dash and the ID of
    the key, which is generated when the key has none; a key created with a
    name keeps it, and its ID is only generated when it is stored. *)
Theorem CreateAccessKey_names (env : Env) (accessKey created : AccessKey)
    (tx tx' : Txn) (body : string) :
  Create env accessKey tx = (inr (body, created), tx') ->
  (Name accessKey = ""%string ->
     exists identity,
       In identity (identities (db tx))
       /\ identity_ID identity = IssuedFor accessKey
       /\ identity_OrganizationID identity = OrganizationID_of tx
       /\ identity_DeletedAt identity = None
       /\ Name created
          = (identity_Name identity +:+ "-" +:+ ID_String (ID created))%string)
  /\ (Name accessKey <> ""%string -> Name created = Name accessKey)
  /\ ID created = (if ID accessKey =? 0 then uid_New env else ID accessKey).
Proof.
  unfold Create, CreateAccessKey, and_then, lift, ret, fail, wrapping, insert, GetIdentity.
  repeat (split_create; cbn [negb] in *; try discriminate);
    intros [= <- <- <-]; cbn;
    repeat match goal with
           | H : String.eqb _ "" = true |- _ => apply String.eqb_eq in H
           | H : String.eqb _ "" = false |- _ => apply String.eqb_neq in H
           | H : List.find _ _ = Some _ |- _ => apply find_some in H as [? ?]
           end;
    cbn in *;
    (repeat split; try congruence; try (intros; exfalso; congruence)).
  all: intros _; eexists; repeat split; eauto; unfold ByID in *;
    repeat match goal with
           | H : _ && _ = true |- _ => apply andb_true_iff in H as [? ?]
           | H : bool_decide _ = true |- _ => apply bool_decide_eq_true in H
           | H : (_ =? _) = true |- _ => apply Z.eqb_eq in H
           end; cbn in *; try congruence; try lia.
Qed.

End CreateMore.

Lemma CreateAccessKey_failure_persists_nothing_witness :
  snd (CreateAccessKey 10 24 sample_ID_String (sample_env 1000)
         (set_IssuedFor 8 sample_key) sample_tx) = sample_tx.
Proof.
  apply (CreateAccessKey_failure_persists_nothing 10 24 sample_ID_String
           (sample_env 1000) (set_IssuedFor 8 sample_key) sample_tx _
           (Errorf_w "access_key.go:90" "key name from identity: " ErrNotFound "")).
  vm_compute. reflexivity.
Defined.

Lemma CreateAccessKey_names_witness :
  Name sample_stored = "usera@example.com-4jgmnx8Js8A"%string /\ ID sample_stored = 41.
Proof.
  destruct (CreateAccessKey_names 10 24 sample_ID_String (sample_env 1000) sample_key
              (set_Secret "abcdefghijklmnopqrstuvwx" sample_stored)
              sample_tx sample_tx1 sample_credential) as (Hdefault & _ & Hid).
  - vm_compute. reflexivity.
  - split; [| exact Hid].
    destruct (Hdefault eq_refl) as (identity & [<- | []] & _ & _ & _ & Hname).
    exact Hname.
Defined.

(** ** Revocation and tenants *)

Lemma Scan_tombstoned (row : list any) (now : Time) (a : AccessKey) :
  Scan (<[1%nat := VNullTime (Some now)]> row) = Some a -> DeletedAt a = Some now.
Proof.
  intros Hs. apply Scan_Some in Hs as [Hrow _].
  assert (Hl : (<[1%nat := VNullTime (Some now)]> row) !! 1%nat
               = Some (VNullTime (Some now))).
  { apply list_lookup_insert_eq.
    apply (f_equal length) in Hrow. rewrite length_insert in Hrow.
    rewrite Hrow. cbn. lia. }
  rewrite Hrow in Hl. cbn in Hl. congruence.
Qed.

Lemma selected_Values (id org : uid_ID) (a : AccessKey) :
  selected 5 9 (VID id) (VID org) (Values a)
  = (ID a =? id) && (OrganizationID a =? org).
Proof.
  unfold selected. cbn.
  destruct (Z.eqb_spec (ID a) id) as [-> | Hi];
    destruct (Z.eqb_spec (OrganizationID a) org) as [-> | Ho]; cbn.
  - now rewrite !bool_decide_eq_true_2.
  - rewrite bool_decide_eq_true_2 by reflexivity.
    rewrite bool_decide_eq_false_2; [reflexivity | congruence].
  - rewrite bool_decide_eq_false_2; [reflexivity | congruence].
  - rewrite bool_decide_eq_false_2; [reflexivity | congruence].
Qed.

(** What a successful delete does to the table: one scoped soft delete. *)
Lemma DeleteAccessKeys_rows (env : Env) (opts : DeleteAccessKeysOptions) (tx tx' : Txn) :
  DeleteAccessKeys env opts tx = (inr tt, tx') ->
  exists i v,
    ((i = 5%nat /\ v = VID (opt_ByID opts) /\ opt_ByID opts <> 0)
     \/ (i = 6%nat /\ v = VID (opt_ByUserID opts) /\ opt_ByID opts = 0)
     \/ (i = 10%nat /\ v = VID (opt_ByProviderID opts) /\ opt_ByID opts = 0))
    /\ tx' = with_access_keys
               ((fun row => if selected i 9 v (VID (OrganizationID_of tx)) row
                            then <[1%nat := VNullTime (Some (Now env 0))]> row
                            else row) <$> access_keys (db tx)) tx.
Proof.
  rewrite DeleteAccessKeys_by_query, DeleteAccessKeys_query_cases.
  destruct (Z.eqb_spec (opt_ByID opts) 0) as [H1 | H1]; cbn [negb];
    [destruct (Z.eqb_spec (opt_ByUserID opts) 0) as [H2 | H2]; cbn [negb];
     [destruct (Z.eqb_spec (opt_ByProviderID opts) 0) as [H3 | H3]; cbn [negb];
      [discriminate |] |] |].
  - cbn [Args delete_query].
    rewrite (Exec_soft_delete _ "provider_id" 10) by (vm_compute; reflexivity).
    intros [= <-]. exists 10%nat, (VID (opt_ByProviderID opts)). split; [| reflexivity]. auto.
  - cbn [Args delete_query].
    rewrite (Exec_soft_delete _ "issued_for" 6) by (vm_compute; reflexivity).
    intros [= <-]. exists 6%nat, (VID (opt_ByUserID opts)). split; [| reflexivity]. auto.
  - cbn [Args delete_query].
    rewrite (Exec_soft_delete _ "id" 5) by (vm_compute; reflexivity).
    intros [= <-]. exists 5%nat, (VID (opt_ByID opts)). split; [| reflexivity]. auto.
Qed.

(** Revocation: after the key found under a key-id is deleted by its ID,
    in the tenant it belongs to, validating a credential with that key-id
    fails, whatever the secret and the time: the key is not found any more.
    The key-id is assumed to name that key only, in that tenant. *)
Theorem DeleteAccessKeys_revokes (env env' : Env) (tx : Txn)
    (authnKey keyID secret : string) (t : AccessKey) :
  Cut authnKey "." = (keyID, secret, true) ->
  GetAccessKey [ByKeyID keyID] tx = (inr t, tx) ->
  ID t <> 0 ->
  (forall a, In a (omap Scan (access_keys (db tx))) ->
             DeletedAt a = None -> KeyID a = keyID ->
             ID a = ID t /\ OrganizationID a = OrganizationID_of tx) ->
  exists tx' err,
    DeleteAccessKeys env
      {| opt_ByID := ID t; opt_ByUserID := 0; opt_ByProviderID := 0 |} tx
    = (inr tt, tx')
    /\ ValidateAccessKey env' authnKey tx' = (inl err, tx')
    /\ errors_Is (Some err) ErrNotFound = true.
Proof.
  intros Hcut Hget Hid Huniq.
  destruct (DeleteAccessKeys env
              {| opt_ByID := ID t; opt_ByUserID := 0; opt_ByProviderID := 0 |} tx)
    as [[err | []] tx'] eqn:Hdel.
  - exfalso. revert Hdel.
    rewrite DeleteAccessKeys_by_query, DeleteAccessKeys_query_cases.
    cbn [opt_ByID]. apply Z.eqb_neq in Hid. rewrite Hid. cbn [negb Args delete_query].
    rewrite (Exec_soft_delete _ "id" 5) by (vm_compute; reflexivity). discriminate.
  - destruct (DeleteAccessKeys_rows _ _ _ _ Hdel) as (i & v & Hsel & ->).
    cbn [opt_ByID opt_ByUserID opt_ByProviderID] in Hsel.
    destruct Hsel as [(-> & -> & _) | [(_ & _ & ?) | (_ & _ & ?)]]; try contradiction.
    set (tx' := with_access_keys _ tx).
    destruct (ValidateAccessKey_not_found env' tx' authnKey keyID secret Hcut)
      as (err & Hrun & His & _).
    + intros a Hin Hk. subst tx'. cbn [with_access_keys db access_keys] in Hin.
      apply list_elem_of_In, list_elem_of_omap in Hin as (row' & Hrow' & Hscan).
      apply list_elem_of_fmap in Hrow' as (row & -> & Hrow).
      destruct (selected 5 9 (VID (ID t)) (VID (OrganizationID_of tx)) row) eqn:Es.
      * apply Scan_tombstoned in Hscan. congruence.
      * intros Hlive. pose proof Hscan as Hscan'. apply Scan_Some in Hscan' as [-> _].
        destruct (Huniq a) as [Ha Ho]; auto.
        { apply list_elem_of_In, list_elem_of_omap. exists (Values a). split; auto. }
        rewrite selected_Values, Ha, Ho, !Z.eqb_refl in Es. discriminate.
    + exists tx', err. auto.
Qed.

Lemma DeleteAccessKeys_revokes_witness :
  exists tx' err,
    DeleteAccessKeys (sample_env 1500)
      {| opt_ByID := 41; opt_ByUserID := 0; opt_ByProviderID := 0 |} sample_tx1
    = (inr tt, tx')
    /\ ValidateAccessKey (sample_env 1501) sample_credential tx' = (inl err, tx')
    /\ errors_Is (Some err) ErrNotFound = true.
Proof.
  apply (DeleteAccessKeys_revokes (sample_env 1500) (sample_env 1501) sample_tx1
           sample_credential "k3yIDk3yID" "abcdefghijklmnopqrstuvwx" sample_stored).
  - vm_compute. reflexivity.
  - vm_compute. reflexivity.
  - vm_compute. discriminate.
  - intros a [<- | []] _ _. split; reflexivity.
Defined.

(** Tenants: a delete issued in one tenant, whatever its selector, leaves
    the keys of every other tenant in force: a key of another tenant that
    was found under its key-id is found, unchanged, afterwards. *)
Theorem DeleteAccessKeys_spares_other_tenants (env : Env)
    (opts : DeleteAccessKeysOptions) (tx tx' : Txn) (keyID : string) (t : AccessKey) :
  DeleteAccessKeys env opts tx = (inr tt, tx') ->
  GetAccessKey [ByKeyID keyID] tx = (inr t, tx) ->
  OrganizationID t <> OrganizationID_of tx ->
  GetAccessKey [ByKeyID keyID] tx' = (inr t, tx').
Proof.
  intros Hdel Hget Horg.
  destruct (DeleteAccessKeys_rows _ _ _ _ Hdel) as (i & v & _ & ->).
  unfold GetAccessKey in *. cbn [with_access_keys db access_keys].
  destruct (List.find _ (omap Scan (access_keys (db tx)))) as [a|] eqn:Hf;
    [| discriminate].
  injection Hget as ->.
  set (P := fun a : AccessKey =>
              bool_decide (DeletedAt a = None) && forallb (fun sel => sel a) [ByKeyID keyID]) in *.
  set (f := fun row : list any => _).
  assert (Hf' : List.find P (omap Scan (f <$> access_keys (db tx))) = Some t).
  { clear Hdel. revert Hf.
    induction (access_keys (db tx)) as [|row rows IH]; [discriminate |].
    cbn [fmap list_fmap omap list_omap].
    unfold f at 1.
    destruct (selected i 9 v (VID (OrganizationID_of tx)) row) eqn:Es.
    - destruct (Scan row) as [a|] eqn:Hs.
      + cbn [List.find]. destruct (P a) eqn:Hp.
        * intros [= ->]. exfalso. apply Scan_Some in Hs as [-> _].
          unfold selected in Es. apply andb_true_iff in Es as [_ Es].
          apply bool_decide_eq_true in Es. cbn in Es. congruence.
        * intros Hrest.
          destruct (Scan (<[1%nat := VNullTime (Some (Now env 0))]> row)) as [a'|] eqn:Hs';
            cbn [List.find]; [| now apply IH].
          apply Scan_tombstoned in Hs'.
          unfold P at 1. rewrite bool_decide_eq_false_2 by congruence.
          cbn [andb]. now apply IH.
      + intros Hrest.
        destruct (Scan (<[1%nat := VNullTime (Some (Now env 0))]> row)) as [a'|] eqn:Hs';
          cbn [List.find]; [| now apply IH].
        apply Scan_tombstoned in Hs'.
        unfold P at 1. rewrite bool_decide_eq_false_2 by congruence.
        cbn [andb]. now apply IH.
    - destruct (Scan row) as [a|]; [| exact IH].
      cbn [List.find]. destruct (P a); [auto | exact IH]. }
  now rewrite Hf'.
Qed.

Lemma DeleteAccessKeys_spares_other_tenants_witness :
  GetAccessKey [ByKeyID "k3yIDk3yID"]
    (snd (DeleteAccessKeys (sample_env 1500)
            {| opt_ByID := 0; opt_ByUserID := 7; opt_ByProviderID := 0 |}
            other_tenant_tx))
  = (inr sample_stored,
     snd (DeleteAccessKeys (sample_env 1500)
            {| opt_ByID := 0; opt_ByUserID := 7; opt_ByProviderID := 0 |}
            other_tenant_tx)).
Proof.
  apply (DeleteAccessKeys_spares_other_tenants (sample_env 1500)
           {| opt_ByID := 0; opt_ByUserID := 7; opt_ByProviderID := 0 |}
           other_tenant_tx).
  - vm_compute. reflexivity.
  - vm_compute. reflexivity.
  - vm_compute. discriminate.
Defined.

(** ** Role requirements *)

(** Enrichment keeps the match: the result of [HandleAuthErr] matches the
    not-authorized sentinel exactly when its argument does, so enriching
    again replaces the resource, the operation and the roles, and an error
    that does not match is never turned into an authorization error. *)
Theorem HandleAuthErr_keeps_match (err : option error)
    (resource operation resource' operation' : string) (roles roles' : list string) :
  errors_Is (HandleAuthErr err resource operation roles) ErrNotAuthorized
  = errors_Is err ErrNotAuthorized
  /\ HandleAuthErr (HandleAuthErr err resource operation roles)
       resource' operation' roles'
     = HandleAuthErr err resource' operation' roles'.
Proof.
  unfold HandleAuthErr.
  destruct (errors_Is err ErrNotAuthorized) eqn:E; cbn [negb].
  - split; reflexivity.
  - rewrite E. cbn [negb]. split; reflexivity.
Qed.


(** [hasAuthorization]: the owner of the resource gets the transaction of
    the request whatever the grants and even with no identity; when the
    ownership check fails its error is wrapped, keeps matching
    every sentinel it matched, and is enriched by [HandleAuthErr] only if it
    matched the not-authorized sentinel; otherwise the answer is that of
    [RequireInfraRole]. *)
Theorem hasAuthorization_outcomes (c : RequestContext) (requestedResource : uid_ID)
    (isResourceOwner : RequestContext -> uid_ID -> error + bool)
    (oneOfRoles : list string) :
  (isResourceOwner c requestedResource = inr true ->
     hasAuthorization c requestedResource isResourceOwner oneOfRoles = inr (DBTxn c))
  /\ (isResourceOwner c requestedResource = inr false ->
      hasAuthorization c requestedResource isResourceOwner oneOfRoles
      = RequireInfraRole c oneOfRoles)
  /\ (forall cause, isResourceOwner c requestedResource = inl cause ->
        exists err,
          hasAuthorization c requestedResource isResourceOwner oneOfRoles = inl err
          /\ Error err = ("owner lookup: " +:+ Error cause)%string
          /\ Unwrap err = Some cause
          /\ (forall p s,
                errors_Is (Some err) (errorString p s)
                = errors_Is (Some cause) (errorString p s))
          /\ (forall resource operation,
                HandleAuthErr (Some err) resource operation oneOfRoles
                = if errors_Is (Some cause) ErrNotAuthorized
                  then Some (AuthorizationError resource operation oneOfRoles)
                  else Some err)).
Proof.
  unfold hasAuthorization. repeat split.
  - now intros ->.
  - now intros ->.
  - intros cause ->. eexists. split; [reflexivity |].
    assert (His : forall p s,
              errors_Is (Some (Errorf_w "access.go:24" "owner lookup: " cause ""))
                (errorString p s)
              = errors_Is (Some cause) (errorString p s)) by reflexivity.
    split; [| split; [| split]].
    + unfold Errorf_w. cbn [Error]. now rewrite append_empty_r.
    + reflexivity.
    + exact His.
    + intros resource operation. unfold HandleAuthErr.
      unfold ErrNotAuthorized at 1. rewrite His. fold ErrNotAuthorized.
      now destruct (errors_Is (Some cause) ErrNotAuthorized).
Qed.


(** ** Migrations *)

Section MigrationFacts.
Variable unicode_ToUpper : string -> string.

Let ToUpper' := ToUpper unicode_ToUpper.
Let rewrites := includeRewritesFor unicode_ToUpper.
Let redirects := redirectsFor unicode_ToUpper.

Lemma upper_byte_not_lower (c : ascii) :
  is_ascii c = true -> is_lower (upper_byte c) = false.
Proof.
  unfold upper_byte, is_lower, is_ascii. intros Ha.
  apply N.ltb_lt in Ha.
  destruct ((97 <=? N_of_ascii c) && (N_of_ascii c <=? 122))%N eqn:E; [| exact E].
  apply andb_true_iff in E as [E1 E2]. apply N.leb_le in E1, E2.
  rewrite N_ascii_embedding by lia.
  apply andb_false_iff. left. apply N.leb_gt. lia.
Qed.

(** On an ASCII string the result has no lower-case letter. *)
Lemma ToUpper_ascii_no_lower (s : string) :
  string_forallb is_ascii s = true ->
  string_forallb (fun c => negb (is_lower c)) (ToUpper' s) = true.
Proof.
  intros Ha. unfold ToUpper', ToUpper. rewrite Ha.
  destruct (string_forallb (fun c => negb (is_lower c)) s) eqn:E; cbn [negb].
  - exact E.
  - clear E. induction s as [|c s IH]; [reflexivity |].
    cbn [string_forallb string_map] in *. apply andb_true_iff in Ha as [Hc Hs].
    rewrite (upper_byte_not_lower c Hc). cbn [negb andb]. now apply IH.
Qed.

(** The rewrite hooks of a method and path: a hook is returned exactly when
    it is the request or the response rewrite of a migration registered for
    that path whose method, in upper case, is the method asked for; the
    hooks come in the order the migrations were registered, the request
    rewrite of a migration before its response rewrite. *)
Theorem includeRewritesFor_hooks (migrations more : list apiMigration)
    (method path : string) :
  (forall h, In h (rewrites migrations method path)
     <-> exists m, In m migrations
                   /\ ToUpper' (migration_method m) = method
                   /\ migration_path m = path
                   /\ (requestRewrite m = Some h \/ responseRewrite m = Some h))
  /\ rewrites (migrations ++ more) method path
     = rewrites migrations method path ++ rewrites more method path
  /\ (forall m rq rs,
        ToUpper' (migration_method m) = method -> migration_path m = path ->
        requestRewrite m = Some rq -> responseRewrite m = Some rs ->
        rewrites [m] method path = [rq; rs]).
Proof.
  unfold rewrites, ToUpper'. split; [| split].
  - intros h. induction migrations as [|m ms IH]; cbn [includeRewritesFor].
    + split; [intros [] | intros (m & [] & _)].
    + destruct (String.eqb_spec (ToUpper unicode_ToUpper (migration_method m)) method)
        as [Hm | Hm]; cbn [negb].
      * destruct (String.eqb_spec (migration_path m) path) as [Hp | Hp]; cbn [negb].
        -- rewrite in_app_iff, IH. split.
           ++ intros [Hh | (m' & Hin & Hrest)].
              ** exists m. split; [now left |]. repeat split; auto.
                 destruct (requestRewrite m) as [rq|], (responseRewrite m) as [rs|];
                   cbn in Hh; intuition congruence.
              ** exists m'. split; [now right | exact Hrest].
           ++ intros (m' & [<- | Hin] & Hm' & Hp' & Hh).
              ** left. destruct (requestRewrite m) as [rq|], (responseRewrite m) as [rs|];
                   cbn; destruct Hh as [[= ->] | [= ->]]; auto; discriminate.
              ** right. exists m'. auto.
        -- rewrite IH. split.
           ++ intros (m' & Hin & Hrest). exists m'. split; [now right | exact Hrest].
           ++ intros (m' & [<- | Hin] & Hm' & Hp' & Hh); [contradiction |].
              exists m'. auto.
      * rewrite IH. split.
        -- intros (m' & Hin & Hrest). exists m'. split; [now right | exact Hrest].
        -- intros (m' & [<- | Hin] & Hm' & Hp' & Hh); [contradiction |].
           exists m'. auto.
  - induction migrations as [|m ms IH]; [reflexivity |].
    cbn [app includeRewritesFor]. rewrite IH.
    destruct (negb _); [reflexivity |]. destruct (negb _); [reflexivity |].
    now rewrite <- app_assoc.
  - intros m rq rs Hm Hp Hrq Hrs. cbn [includeRewritesFor].
    rewrite Hm, Hp, !String.eqb_refl, Hrq, Hrs. reflexivity.
Qed.

(** The redirects of a method and path: the migrations, in registration
    order, whose method in upper case is the method asked for and whose
    new name is the path. *)
Theorem redirectsFor_migrations (migrations more : list apiMigration)
    (method path : string) :
  (forall m, In m (redirects migrations method path)
     <-> In m migrations
         /\ ToUpper' (migration_method m) = method
         /\ migration_rename m = path)
  /\ redirects (migrations ++ more) method path
     = redirects migrations method path ++ redirects more method path
  /\ sublist (redirects migrations method path) migrations.
Proof.
  unfold redirects, ToUpper'. split; [| split].
  - intros m0. induction migrations as [|m ms IH]; cbn [redirectsFor].
    + split; [intros [] | intros ([] & _)].
    + destruct (String.eqb_spec (ToUpper unicode_ToUpper (migration_method m)) method)
        as [Hm | Hm]; cbn [negb].
      * destruct (String.eqb_spec (migration_rename m) path) as [Hp | Hp].
        -- cbn [In]. rewrite IH. split.
           ++ intros [<- | (Hin & Hrest)]; [auto | split; [now right | exact Hrest]].
           ++ intros ([<- | Hin] & Hrest); auto.
        -- rewrite IH. split.
           ++ intros (Hin & Hrest). split; [now right | exact Hrest].
           ++ intros ([<- | Hin] & Hm' & Hp'); [contradiction | auto].
      * rewrite IH. split.
        -- intros (Hin & Hrest). split; [now right | exact Hrest].
        -- intros ([<- | Hin] & Hm' & Hp'); [contradiction | auto].
  - induction migrations as [|m ms IH]; [reflexivity |].
    cbn [app redirectsFor]. rewrite IH.
    destruct (negb _); [reflexivity |]. now destruct (String.eqb _ _).
  - induction migrations as [|m ms IH]; cbn [redirectsFor]; [constructor |].
    destruct (negb _); [now apply sublist_cons |].
    destruct (String.eqb _ _); [now apply sublist_skip | now apply sublist_cons].
Qed.

(** The method asked for is compared as it is: only the method of the
    migration is put in upper case.  When the migrations have ASCII
    methods, a method with a lower-case letter gets no rewrite hook and no
    redirect, however it is spelled in the migrations. *)
Theorem lower_case_method_matches_nothing (migrations : list apiMigration)
    (method path : string) :
  Forall (fun m => string_forallb is_ascii (migration_method m) = true) migrations ->
  string_forallb (fun c => negb (is_lower c)) method = false ->
  rewrites migrations method path = [] /\ redirects migrations method path = [].
Proof.
  intros Hascii Hlow.
  assert (Hne : forall m, In m migrations ->
            String.eqb (ToUpper unicode_ToUpper (migration_method m)) method = false).
  { intros m Hin. apply String.eqb_neq. intros He.
    rewrite Forall_forall in Hascii.
    pose proof (ToUpper_ascii_no_lower _ (Hascii m (proj2 (list_elem_of_In _ _) Hin))) as Hup.
    unfold ToUpper' in Hup. rewrite He in Hup. congruence. }
  unfold rewrites, redirects. clear Hascii.
  induction migrations as [|m ms IH]; [split; reflexivity |].
  cbn [includeRewritesFor redirectsFor]. rewrite (Hne m) by now left.
  cbn [negb]. apply IH. intros m' Hin. apply Hne. now right.
Qed.

End MigrationFacts.

Lemma lower_case_method_matches_nothing_witness :
  includeRewritesFor id sample_migrations "get" "/v1/users" = []
  /\ redirectsFor id sample_migrations "get" "/api/users" = [].
Proof.
  split.
  - apply (lower_case_method_matches_nothing id sample_migrations "get" "/v1/users").
    + repeat constructor.
    + reflexivity.
  - apply (lower_case_method_matches_nothing id sample_migrations "get" "/api/users").
    + repeat constructor.
    + reflexivity.
Defined.

Example includeRewritesFor_sample :
  includeRewritesFor id sample_migrations "GET" "/v1/users"
  = [legacy "request-0.12"; legacy "response-0.12"; legacy "response-0.13"].
Proof. reflexivity. Qed.

(** ** Decoding and wrapping *)

Section WrapFacts.
Context {Req Res : Type} (B : @Binding Req) (marshal : Res -> string).

(** [bind] fails in two ways only: a decoding step failed, and the error
    wraps the bad-request sentinel and carries the text of the cause; or
    the validation of the decoded value failed, and its error is returned
    as it is.  The body is decoded only when there is one, of positive
    length. *)
Theorem bind_failures (c : Context) (req : Req) (err : error) :
  bind B c req = inl err ->
  (exists cause,
     errors_Is (Some err) ErrBadRequest = true
     /\ Unwrap err = Some ErrBadRequest
     /\ Error err = ("bad request: " +:+ Error cause)%string
     /\ (ShouldBindUri B c req = inl cause
         \/ (exists r, ShouldBindQuery B c r = inl cause)
         \/ (exists r, ShouldBindJSON B c r = inl cause
                       /\ HasBody (request c) = true
                       /\ 0 < ContentLength (request c))))
  \/ (exists r, validate_Struct B r = Some err).
Proof.
  unfold bind.
  destruct (ShouldBindUri B c req) as [e1 | r1] eqn:H1.
  { intros [= <-]. left. exists e1. repeat split. now left. }
  destruct (ShouldBindQuery B c r1) as [e2 | r2] eqn:H2.
  { intros [= <-]. left. exists e2. repeat split. right. left. eauto. }
  destruct (HasBody (request c) && (0 <? ContentLength (request c))) eqn:Hb.
  - destruct (ShouldBindJSON B c r2) as [e3 | r3] eqn:H3.
    { intros [= <-]. left. exists e3. repeat split. right. right.
      apply andb_true_iff in Hb as [Hb1 Hb2]. apply Z.ltb_lt in Hb2. eauto. }
    destruct (validate_Struct B r3) as [e4|] eqn:H4; [| discriminate].
    intros [= <-]. right. eauto.
  - destruct (validate_Struct B r2) as [e4|] eqn:H4; [| discriminate].
    intros [= <-]. right. eauto.
Qed.

(** Without a body, or with a content length that is not positive, the JSON
    decoder plays no part: any other decoder gives the same result. *)
Theorem bind_without_body (c : Context) (req : Req)
    (other : Context -> Req -> error + Req) :
  HasBody (request c) = false \/ ContentLength (request c) <= 0 ->
  bind B c req
  = bind {| new_Req := new_Req B;
            ShouldBindUri := ShouldBindUri B;
            ShouldBindQuery := ShouldBindQuery B;
            ShouldBindJSON := other;
            validate_Struct := validate_Struct B |} c req.
Proof.
  intros Hb. unfold bind. cbn.
  replace (HasBody (request c) && (0 <? ContentLength (request c))) with false.
  - reflexivity.
  - symmetry. apply andb_false_iff.
    destruct Hb as [Hb | Hb]; [now left | right; apply Z.ltb_ge; lia].
Qed.

(** When the request does not decode, the handler is not run: the response
    is the error response, whatever the handler is; and no response changes
    the request. *)
Theorem wrapHandler_decode_failure (handler other : @HandlerFunc Req Res)
    (c : Context) (err : error) :
  bind B c (new_Req B) = inl err ->
  wrapHandler B marshal handler c = sendAPIError c err
  /\ wrapHandler B marshal handler c = wrapHandler B marshal other c
  /\ request (wrapHandler B marshal handler c) = request c.
Proof.
  intros Hb. unfold wrapHandler. rewrite Hb. repeat split.
Qed.

End WrapFacts.

Lemma bind_failures_witness :
  exists cause,
    errors_Is
      (Some (Errorf_w "routes.go:304" "" ErrBadRequest ": invalid id")) ErrBadRequest = true
    /\ Error (Errorf_w "routes.go:304" "" ErrBadRequest ": invalid id")
       = ("bad request: " +:+ Error cause)%string.
Proof.
  destruct (bind_failures
              {| new_Req := tt;
                 ShouldBindUri := fun _ _ => inl (errorString "uri" "invalid id");
                 ShouldBindQuery := fun _ r => inr r;
                 ShouldBindJSON := fun _ r => inr r;
                 validate_Struct := fun _ => None |}
              (listing_request ∅) tt
              (Errorf_w "routes.go:304" "" ErrBadRequest ": invalid id"))
    as [(cause & His & _ & Hmsg & _) | (r & Hv)].
  - reflexivity.
  - exists cause. split; assumption.
  - discriminate.
Defined.

Lemma bind_without_body_witness :
  bind listing_binding (listing_request ∅) tt
  = bind {| new_Req := tt;
            ShouldBindUri := fun _ r => inr r;
            ShouldBindQuery := fun _ r => inr r;
            ShouldBindJSON := fun _ _ => inl (errorString "json" "unexpected end");
            validate_Struct := fun _ => None |} (listing_request ∅) tt.
Proof.
  apply (bind_without_body listing_binding (listing_request ∅) tt
           (fun _ _ => inl (errorString "json" "unexpected end"))).
  left. reflexivity.
Defined.

Lemma wrapHandler_decode_failure_witness :
  wrapHandler
    {| new_Req := tt;
       ShouldBindUri := fun _ _ => inl (errorString "uri" "invalid id");
       ShouldBindQuery := fun _ r => inr r;
       ShouldBindJSON := fun _ r => inr r;
       validate_Struct := fun _ => None |} id
    (fun _ _ => inr "served"%string) (listing_request ∅)
  = sendAPIError (listing_request ∅)
      (Errorf_w "routes.go:304" "" ErrBadRequest ": invalid id").
Proof.
  apply (wrapHandler_decode_failure _ id (fun _ _ => inr "served"%string)
           (fun _ _ => inr "other"%string) (listing_request ∅)).
  reflexivity.
Defined.

(** ** Registration helpers *)

Section RegisterFacts.
Context {Version : Type} `{SemVer Version} {Req Res : Type}.
Variable path_Join : string -> string -> string.
Variable B : @Binding Req.
Variable marshal : Res -> string.


End RegisterFacts.


(** ** The filtered writer *)

Lemma bytes_HasPrefix_spec (b prefix : list byte) :
  bytes_HasPrefix b prefix = true <-> exists rest, b = prefix ++ rest.
Proof.
  revert b. induction prefix as [|p prefix IH]; intros b; cbn [bytes_HasPrefix].
  - split; [intros _; now exists b | reflexivity].
  - destruct b as [|x b].
    + split; [discriminate | intros [rest Hr]; discriminate].
    + rewrite andb_true_iff, IH. split.
      * intros [Hp [rest ->]]. apply Byte.byte_dec_bl in Hp. subst. now exists rest.
      * intros [rest [= -> ->]]. split; [apply Byte.byte_dec_lb; reflexivity | now exists rest].
Qed.

(** What [bytes.Index] finds: the separator occurs at the position
    returned, and the line is long enough to hold it there. *)
Lemma first_occurrence_Some (b sep : list byte) (i : nat) :
  first_occurrence b sep = Some i ->
  exists post, b = take i b ++ sep ++ post
               /\ (i + length sep <= length b)%nat.
Proof.
  revert i. induction b as [|x b IH]; intros i; cbn [first_occurrence].
  - destruct (bytes_HasPrefix [] sep) eqn:E; [| discriminate].
    intros [= <-]. apply bytes_HasPrefix_spec in E as [rest E].
    exists rest. split; [exact E |].
      apply (f_equal (@length byte)) in E. rewrite length_app in E.
      cbn [length] in *. lia.
  - destruct (bytes_HasPrefix (x :: b) sep) eqn:E.
    + intros [= <-]. apply bytes_HasPrefix_spec in E as [rest E].
      exists rest. split; [exact E |].
      apply (f_equal (@length byte)) in E. rewrite length_app in E.
      cbn [length] in *. lia.
    + destruct (first_occurrence b sep) as [i'|] eqn:E'; [| discriminate].
      intros [= <-]. destruct (IH i' eq_refl) as (post & Hb & Hlen).
      exists post. split; [cbn [take app]; now rewrite <- Hb | cbn [length]; lia].
Qed.

(** And what it means that it finds nothing. *)
Lemma first_occurrence_None (b sep : list byte) :
  first_occurrence b sep = None <-> forall pre post, b <> pre ++ sep ++ post.
Proof.
  induction b as [|x b IH]; cbn [first_occurrence].
  - destruct (bytes_HasPrefix [] sep) eqn:E.
    + split; [discriminate |]. intros Hno. exfalso.
      apply bytes_HasPrefix_spec in E as [rest E]. now apply (Hno [] rest).
    + split; [| reflexivity]. intros _ pre post Hb.
      destruct pre; [| discriminate].
      assert (bytes_HasPrefix [] sep = true)
        by (apply bytes_HasPrefix_spec; now exists post).
      congruence.
  - destruct (bytes_HasPrefix (x :: b) sep) eqn:E.
    + split; [discriminate |]. intros Hno. exfalso.
      apply bytes_HasPrefix_spec in E as [rest E]. now apply (Hno [] rest).
    + destruct (first_occurrence b sep) as [i|] eqn:E'.
      * split; [discriminate |]. intros Hno. exfalso.
        destruct (first_occurrence_Some b sep i E') as (post & Hb & _).
        apply (Hno (x :: take i b) post). cbn [app]. now rewrite <- Hb.
      * split; [| reflexivity]. intros _ pre post Hb.
        destruct pre as [|y pre].
        -- assert (bytes_HasPrefix (x :: b) sep = true)
             by (apply bytes_HasPrefix_spec; now exists post).
           congruence.
        -- injection Hb as -> Hb. now apply (proj1 IH eq_refl pre post).
Qed.

Section FilteredWriterFacts.
Variable json_Unmarshal : list byte -> error + gmap string JSONValue.
Variable json_Marshal : gmap string JSONValue -> error + list byte.

Lemma slice_to_in_range {A} (b : list A) (n : nat) :
  (n <= length b)%nat -> slice_to b (Z.of_nat n) = Some (take n b).
Proof.
  intros Hn. unfold slice_to.
  replace (0 <=? Z.of_nat n) with true by (symmetry; apply Z.leb_le; lia).
  replace (Z.of_nat n <=? Z.of_nat (length b)) with true by (symmetry; apply Z.leb_le; lia).
  cbn [andb]. now rewrite Nat2Z.id.
Qed.

Lemma slice_from_in_range {A} (b : list A) (n : nat) :
  (n <= length b)%nat -> slice_from b (Z.of_nat n) = Some (drop n b).
Proof.
  intros Hn. unfold slice_from.
  replace (0 <=? Z.of_nat n) with true by (symmetry; apply Z.leb_le; lia).
  replace (Z.of_nat n <=? Z.of_nat (length b)) with true by (symmetry; apply Z.leb_le; lia).
  cbn [andb]. now rewrite Nat2Z.id.
Qed.

(** A line in which the phrase does not occur is handed on as it is. *)
Theorem filter_line_passes_other_lines {Dest : Type}
    (dest_Write : list byte -> Dest -> (Z * option error) * Dest)
    (b : list byte) (dest : Dest) :
  (forall pre post, b <> pre ++ strInvalidHeaderFieldValue ++ post) ->
  filter_line json_Unmarshal json_Marshal b = Forwarded b
  /\ filteredWriterSyncer_Write json_Unmarshal json_Marshal dest_Write b dest
     = Some (dest_Write b dest).
Proof.
  intros Hno. apply first_occurrence_None in Hno.
  assert (Hf : filter_line json_Unmarshal json_Marshal b = Forwarded b).
  { unfold filter_line, bytes_Index. now rewrite Hno. }
  split; [exact Hf |]. unfold filteredWriterSyncer_Write. now rewrite Hf.
Qed.

(** Redaction: when [for key] first occurs more than one byte after the
    first occurrence of the phrase, the line is the phrase with what
    precedes it, one byte, a value, and [for key] with what follows it; the
    value is left out and everything else is handed on. *)
Theorem filter_line_drops_header_value (b : list byte) (i k : nat) :
  first_occurrence b strInvalidHeaderFieldValue = Some i ->
  first_occurrence b forKey = Some k ->
  (i + length strInvalidHeaderFieldValue < k)%nat ->
  exists pre c value rest,
    b = pre ++ strInvalidHeaderFieldValue ++ c :: value ++ forKey ++ rest
    /\ length pre = i
    /\ filter_line json_Unmarshal json_Marshal b = Forwarded (pre ++ strInvalidHeaderFieldValue ++ c :: forKey ++ rest).
Proof.
  intros Hi Hk Hlt.
  destruct (first_occurrence_Some _ _ _ Hi) as (post & Hb & Hlen).
  destruct (first_occurrence_Some _ _ _ Hk) as (rest & Hbk & Hlenk).
  set (n := length strInvalidHeaderFieldValue) in *.
  assert (Hdrop : drop k b = forKey ++ rest).
  { rewrite Hbk at 1. rewrite drop_app_length'; [reflexivity |].
    rewrite length_take. lia. }
  assert (Hpost : post = drop (i + n) b).
  { rewrite Hb at 1. rewrite app_assoc, drop_app_length'; [reflexivity |].
    rewrite length_app, length_take. fold n. lia. }
  assert (Hc : exists c, b !! (i + n)%nat = Some c).
  { apply lookup_lt_is_Some. lia. }
  destruct Hc as [c Hc].
  assert (Hmid : drop (i + n) b = c :: take (k - (i + n) - 1) (drop (i + n + 1) b)
                                   ++ drop k b).
  { rewrite (drop_S b c (i + n)) by exact Hc. f_equal.
    replace (S (i + n)) with (i + n + 1)%nat by lia.
    rewrite <- (take_drop (k - (i + n) - 1) (drop (i + n + 1) b)) at 1.
    f_equal. rewrite drop_drop. f_equal. lia. }
  exists (take i b), c, (take (k - (i + n) - 1) (drop (i + n + 1) b)), rest.
  split; [| split].
  - rewrite Hb at 1. rewrite Hpost, Hmid, Hdrop. reflexivity.
  - rewrite length_take. lia.
  - unfold filter_line, bytes_Index. rewrite Hi, Hk. fold n.
    replace (0 <=? Z.of_nat i) with true by (symmetry; apply Z.leb_le; lia).
    replace (Z.of_nat i + Z.of_nat n <? Z.of_nat k) with true
      by (symmetry; apply Z.ltb_lt; lia).
    replace (Z.of_nat i + Z.of_nat n + 1) with (Z.of_nat (i + n + 1)) by lia.
    rewrite slice_to_in_range by lia. rewrite slice_from_in_range by lia.
    f_equal. rewrite Hdrop.
    replace (i + n + 1)%nat with (S (i + n)) by lia.
    rewrite (take_S_r b (i + n) c Hc).
    assert (Htake : take (i + n) b = take i b ++ strInvalidHeaderFieldValue).
    { rewrite Hb at 1. rewrite app_assoc, take_app_length'; [reflexivity |].
      rewrite length_app, length_take. fold n. lia. }
    rewrite Htake, <- !app_assoc. reflexivity.
Qed.

(** Truncation: a line that does not start with an opening brace, and in
    which [for key] does not first occur more than one byte after the
    phrase, is cut right after the phrase; the count handed back to the
    caller by a buffer is that of the shortened line. *)
Theorem filter_line_truncates_plain_lines (b buffer : list byte) (i : nat) :
  first_occurrence b strInvalidHeaderFieldValue = Some i ->
  (forall k, first_occurrence b forKey = Some k ->
             (k <= i + length strInvalidHeaderFieldValue)%nat) ->
  head b <> Some "{"%byte ->
  exists post,
    b = take i b ++ strInvalidHeaderFieldValue ++ post
    /\ filter_line json_Unmarshal json_Marshal b = Forwarded (take i b ++ strInvalidHeaderFieldValue)
    /\ filteredWriterSyncer_Write json_Unmarshal json_Marshal buffer_Write b buffer
       = Some ((Z.of_nat (i + length strInvalidHeaderFieldValue), None),
               buffer ++ take i b ++ strInvalidHeaderFieldValue).
Proof.
  intros Hi Hk Hhead.
  destruct (first_occurrence_Some _ _ _ Hi) as (post & Hb & Hlen).
  set (n := length strInvalidHeaderFieldValue) in *.
  assert (Htake : take (i + n) b = take i b ++ strInvalidHeaderFieldValue).
  { rewrite Hb at 1. rewrite app_assoc, take_app_length'; [reflexivity |].
    rewrite length_app, length_take. fold n. lia. }
  assert (Hf : filter_line json_Unmarshal json_Marshal b = Forwarded (take i b ++ strInvalidHeaderFieldValue)).
  { unfold filter_line, bytes_Index. rewrite Hi. fold n.
    replace (0 <=? Z.of_nat i) with true by (symmetry; apply Z.leb_le; lia).
    replace (Z.of_nat i + Z.of_nat n <? _) with false.
    2:{ symmetry. apply Z.ltb_ge.
        destruct (first_occurrence b forKey) as [k|] eqn:E; [| lia].
        specialize (Hk k eq_refl). lia. }
    destruct b as [|first b']; [cbn in Hlen; unfold n in Hlen; cbn in Hlen; lia |].
    change (at_index (first :: b') 0) with (Some first). cbv beta iota.
    destruct (Byte.eqb first "{") eqn:Eb.
    { apply Byte.byte_dec_bl in Eb. subst first. now cbn in Hhead. }
    cbn [negb].
    replace (Z.of_nat i + Z.of_nat n) with (Z.of_nat (i + n)) by lia.
    rewrite slice_to_in_range by exact Hlen. now rewrite Htake. }
  exists post. split; [exact Hb | split; [exact Hf |]].
  unfold filteredWriterSyncer_Write. rewrite Hf.
  unfold buffer_Write. rewrite length_app, length_take. fold n.
  do 3 f_equal. lia.
Qed.

(** No slice expression of [Write] is ever out of range: every line is
    handed on, in full or in part, or left out. *)
Theorem filter_line_never_panics {Dest : Type}
    (dest_Write : list byte -> Dest -> (Z * option error) * Dest)
    (b : list byte) (dest : Dest) :
  filter_line json_Unmarshal json_Marshal b <> Panics
  /\ filteredWriterSyncer_Write json_Unmarshal json_Marshal dest_Write b dest <> None.
Proof.
  assert (Hf : filter_line json_Unmarshal json_Marshal b <> Panics).
  { unfold filter_line, bytes_Index.
    destruct (first_occurrence b strInvalidHeaderFieldValue) as [i|] eqn:Hi;
      [| cbn; discriminate].
    destruct (first_occurrence_Some _ _ _ Hi) as (post & Hb & Hlen).
    set (n := length strInvalidHeaderFieldValue) in *.
    replace (0 <=? Z.of_nat i) with true by (symmetry; apply Z.leb_le; lia).
    destruct (Z.of_nat i + Z.of_nat n <? _) eqn:Hlt.
    - apply Z.ltb_lt in Hlt.
      destruct (first_occurrence b forKey) as [k|] eqn:Hk; [| lia].
      destruct (first_occurrence_Some _ _ _ Hk) as (rest & _ & Hlenk).
      replace (Z.of_nat i + Z.of_nat n + 1) with (Z.of_nat (i + n + 1)) by lia.
      rewrite slice_to_in_range by lia. rewrite slice_from_in_range by lia.
      discriminate.
    - destruct b as [|first b']; [cbn in Hlen; unfold n in Hlen; cbn in Hlen; lia |].
      change (at_index (first :: b') 0) with (Some first). cbv beta iota.
      destruct (negb (Byte.eqb first "{")).
      + replace (Z.of_nat i + Z.of_nat n) with (Z.of_nat (i + n)) by lia.
        rewrite slice_to_in_range by exact Hlen. discriminate.
      + destruct (json_Unmarshal (first :: b')) as [e|m]; [discriminate |].
        destruct (m !! "msg"%string) as [[smsg|raw]|]; try discriminate.
        unfold strings_Index, bytes_Index.
        rewrite list_byte_of_string_of_list_byte.
        destruct (first_occurrence (list_byte_of_string smsg) _) as [j|] eqn:Hj;
          [| cbn; discriminate].
        destruct (first_occurrence_Some _ _ _ Hj) as (tail & _ & Hlenj).
        replace (0 <=? Z.of_nat j) with true by (symmetry; apply Z.leb_le; lia).
        replace (Z.of_nat j + Z.of_nat n) with (Z.of_nat (j + n)) by lia.
        rewrite slice_to_in_range by exact Hlenj.
        destruct (json_Marshal _); discriminate. }
  split; [exact Hf |].
  unfold filteredWriterSyncer_Write.
  destruct (filter_line json_Unmarshal json_Marshal b); [discriminate | discriminate | congruence].
Qed.

(** Lines in JSON: when the line starts with an opening brace and contains
    the phrase, with no [for key] further on, whatever is handed on is the
    encoding of the decoded object with its [msg] cut right after the first
    occurrence of the phrase in it; the line itself is never handed on. *)
Theorem filter_line_json_lines (b payload : list byte) (i : nat) :
  first_occurrence b strInvalidHeaderFieldValue = Some i ->
  (forall k, first_occurrence b forKey = Some k ->
             (k <= i + length strInvalidHeaderFieldValue)%nat) ->
  head b = Some "{"%byte ->
  filter_line json_Unmarshal json_Marshal b = Forwarded payload ->
  exists m smsg j,
    json_Unmarshal b = inr m
    /\ m !! "msg"%string = Some (JSONString smsg)
    /\ first_occurrence (list_byte_of_string smsg) strInvalidHeaderFieldValue = Some j
    /\ json_Marshal
         (<["msg"%string :=
              JSONString (string_of_list_byte
                            (take j (list_byte_of_string smsg)
                             ++ strInvalidHeaderFieldValue))]> m)
       = inr payload.
Proof.
  intros Hi Hk Hhead. unfold filter_line, bytes_Index. rewrite Hi.
  set (n := length strInvalidHeaderFieldValue) in *.
  replace (0 <=? Z.of_nat i) with true by (symmetry; apply Z.leb_le; lia).
  replace (Z.of_nat i + Z.of_nat n <? _) with false.
  2:{ symmetry. apply Z.ltb_ge.
      destruct (first_occurrence b forKey) as [k|] eqn:E; [| lia].
      specialize (Hk k eq_refl). lia. }
  destruct b as [|first b']; [discriminate |].
  change (at_index (first :: b') 0) with (Some first). cbv beta iota. injection Hhead as ->. cbn [Byte.eqb negb].
  replace (Byte.eqb "{" "{") with true by reflexivity. cbn [negb].
  destruct (json_Unmarshal _) as [e|m] eqn:Hu; [discriminate |].
  destruct (m !! "msg"%string) as [[smsg|raw]|] eqn:Hmsg; try discriminate.
  unfold strings_Index, bytes_Index. rewrite list_byte_of_string_of_list_byte.
  destruct (first_occurrence (list_byte_of_string smsg) _) as [j|] eqn:Hj;
    [| cbn; discriminate].
  destruct (first_occurrence_Some _ _ _ Hj) as (tail & Hs & Hlenj).
  replace (0 <=? Z.of_nat j) with true by (symmetry; apply Z.leb_le; lia).
  replace (Z.of_nat j + Z.of_nat n) with (Z.of_nat (j + n)) by lia.
  rewrite slice_to_in_range by exact Hlenj.
  assert (Htake : take (j + n) (list_byte_of_string smsg)
                  = take j (list_byte_of_string smsg) ++ strInvalidHeaderFieldValue).
  { rewrite Hs at 1. rewrite app_assoc, take_app_length'; [reflexivity |].
    rewrite length_app, length_take. fold n. lia. }
  rewrite Htake.
  destruct (json_Marshal _) as [e|newBytes] eqn:Hm; [discriminate |].
  intros [= <-]. exists m, smsg, j. now rewrite ?Hu, ?Hmsg, ?Hj, ?Hm.
Qed.

(** A line in JSON that cannot be decoded is left out: the destination is
    not written to, and the caller is told that nothing was written and
    nothing went wrong. *)
Theorem filteredWriterSyncer_Write_undecodable {Dest : Type}
    (dest_Write : list byte -> Dest -> (Z * option error) * Dest)
    (b : list byte) (dest : Dest) (i : nat) (err : error) :
  first_occurrence b strInvalidHeaderFieldValue = Some i ->
  (forall k, first_occurrence b forKey = Some k ->
             (k <= i + length strInvalidHeaderFieldValue)%nat) ->
  head b = Some "{"%byte ->
  json_Unmarshal b = inl err ->
  filteredWriterSyncer_Write json_Unmarshal json_Marshal dest_Write b dest
  = Some ((0, None), dest).
Proof.
  intros Hi Hk Hhead Herr.
  unfold filteredWriterSyncer_Write, filter_line, bytes_Index. rewrite Hi.
  set (n := length strInvalidHeaderFieldValue) in *.
  replace (0 <=? Z.of_nat i) with true by (symmetry; apply Z.leb_le; lia).
  replace (Z.of_nat i + Z.of_nat n <? _) with false.
  2:{ symmetry. apply Z.ltb_ge.
      destruct (first_occurrence b forKey) as [k|] eqn:E; [| lia].
      specialize (Hk k eq_refl). lia. }
  destruct b as [|first b']; [discriminate |].
  change (at_index (first :: b') 0) with (Some first). cbv beta iota. injection Hhead as ->.
  replace (Byte.eqb "{" "{") with true by reflexivity. cbn [negb].
  now rewrite Herr.
Qed.

End FilteredWriterFacts.

Lemma filter_line_passes_other_lines_witness :
  filteredWriterSyncer_Write sample_json_Unmarshal sample_json_Marshal buffer_Write
    (list_byte_of_string "http2: server started") []
  = Some ((21, None), list_byte_of_string "http2: server started").
Proof.
  refine (proj2 (filter_line_passes_other_lines
                   sample_json_Unmarshal sample_json_Marshal buffer_Write
                   (list_byte_of_string "http2: server started") [] _)).
  apply first_occurrence_None. reflexivity.
Defined.

Lemma filter_line_drops_header_value_witness :
  exists pre c value rest,
    sample_plain_line
    = pre ++ strInvalidHeaderFieldValue ++ c :: value ++ forKey ++ rest
    /\ length pre = 7%nat
    /\ filter_line sample_json_Unmarshal sample_json_Marshal sample_plain_line
       = Forwarded (pre ++ strInvalidHeaderFieldValue ++ c :: forKey ++ rest).
Proof.
  apply (filter_line_drops_header_value
           sample_json_Unmarshal sample_json_Marshal sample_plain_line 7 41).
  - reflexivity.
  - reflexivity.
  - change (length strInvalidHeaderFieldValue) with 26%nat. lia.
Defined.

Lemma filter_line_truncates_plain_lines_witness :
  exists post,
    sample_cut_line = take 7 sample_cut_line ++ strInvalidHeaderFieldValue ++ post
    /\ filter_line sample_json_Unmarshal sample_json_Marshal sample_cut_line
       = Forwarded (take 7 sample_cut_line ++ strInvalidHeaderFieldValue)
    /\ filteredWriterSyncer_Write sample_json_Unmarshal sample_json_Marshal
         buffer_Write sample_cut_line []
       = Some ((Z.of_nat (7 + length strInvalidHeaderFieldValue), None),
               [] ++ take 7 sample_cut_line ++ strInvalidHeaderFieldValue).
Proof.
  apply (filter_line_truncates_plain_lines
           sample_json_Unmarshal sample_json_Marshal sample_cut_line [] 7).
  - reflexivity.
  - intros k Hk. vm_compute in Hk. discriminate.
  - vm_compute. discriminate.
Defined.

Lemma filter_line_json_lines_witness :
  exists m smsg j,
    sample_json_Unmarshal sample_json_line = inr m
    /\ m !! "msg"%string = Some (JSONString smsg)
    /\ first_occurrence (list_byte_of_string smsg) strInvalidHeaderFieldValue = Some j
    /\ sample_json_Marshal
         (<["msg"%string :=
              JSONString (string_of_list_byte
                            (take j (list_byte_of_string smsg)
                             ++ strInvalidHeaderFieldValue))]> m)
       = inr (json_object_of_msg
                (list_byte_of_string "http2: invalid header field value")).
Proof.
  apply (filter_line_json_lines
           sample_json_Unmarshal sample_json_Marshal sample_json_line
           (json_object_of_msg
              (list_byte_of_string "http2: invalid header field value")) 15).
  - reflexivity.
  - intros k Hk. vm_compute in Hk. discriminate.
  - reflexivity.
  - vm_compute. reflexivity.
Defined.

Lemma filteredWriterSyncer_Write_undecodable_witness :
  filteredWriterSyncer_Write sample_json_Unmarshal sample_json_Marshal buffer_Write
    (list_byte_of_string "{invalid header field value") sample_plain_line
  = Some ((0, None), sample_plain_line).
Proof.
  apply (filteredWriterSyncer_Write_undecodable
           sample_json_Unmarshal sample_json_Marshal buffer_Write
           (list_byte_of_string "{invalid header field value") sample_plain_line 1
           (errorString "json.SyntaxError" "invalid character")).
  - reflexivity.
  - intros k Hk. vm_compute in Hk. discriminate.
  - reflexivity.
  - reflexivity.
Defined.

(** ** The identity provider *)

Section OIDCFacts.
Variables Provider Endpoint TokenSource JSONWebToken IDToken ResponseBody : Type.
Variable oidc_NewProvider : string -> error + Provider.
Variable provider_Endpoint : Provider -> Endpoint.
Variable conf_Exchange : authn.oauth2_Config Endpoint -> string -> error + authn.oauth2_Token.
Variable conf_TokenSource : authn.oauth2_Config Endpoint -> authn.oauth2_Token -> TokenSource.
Variable tokenSource_Token : TokenSource -> error + authn.oauth2_Token.
Variable jwt_ParseSigned : string -> error + JSONWebToken.
Variable UnsafeClaimsWithoutVerification : JSONWebToken -> error + Time.
Variable verifier_Verify : Provider -> string -> string -> error + IDToken.
Variable idToken_Claims : IDToken -> error + string.
Variable http_NewRequest : string -> string -> option error.
Variable client_Do :
  TokenSource -> string -> string -> string -> error + authn.http_Response ResponseBody.
Variable json_Decode : ResponseBody -> error + authn.UserInfo.
Variable ErrForbidden : error.

(** An exchange that succeeds has verified the ID token: the email handed
    back is a claim of the token that the provider's verifier accepted for
    this client, the ID token being the one the exchange of the code gave;
    the expiry is read from the access token without verification. *)
Theorem ExchangeAuthCodeForProviderTokens_verified (o : authn.oidcImplementation)
    (code access refresh email : string) (exp : Time) :
  authn.ExchangeAuthCodeForProviderTokens Provider Endpoint JSONWebToken IDToken
    oidc_NewProvider provider_Endpoint conf_Exchange jwt_ParseSigned
    UnsafeClaimsWithoutVerification verifier_Verify idToken_Claims o code
  = inr (access, refresh, exp, email) ->
  exists provider conf exchanged rawIDToken idToken accessToken,
    oidc_NewProvider ("https://" +:+ authn.Domain o) = inr provider
    /\ authn.conf_ClientID Endpoint conf = authn.ClientID o
    /\ authn.conf_ClientSecret Endpoint conf = authn.ClientSecret o
    /\ conf_Exchange conf code = inr exchanged
    /\ authn.oauth2_Extra exchanged "access_token" = Some (JSONString access)
    /\ authn.oauth2_Extra exchanged "refresh_token" = Some (JSONString refresh)
    /\ authn.oauth2_Extra exchanged "id_token" = Some (JSONString rawIDToken)
    /\ verifier_Verify provider (authn.ClientID o) rawIDToken = inr idToken
    /\ idToken_Claims idToken = inr email
    /\ jwt_ParseSigned access = inr accessToken
    /\ UnsafeClaimsWithoutVerification accessToken = inr exp.
Proof.
  unfold authn.ExchangeAuthCodeForProviderTokens, authn.clientConfig,
    authn.getAccessTokenExpiry.
  destruct (oidc_NewProvider _) as [e | provider] eqn:Hp; [discriminate |].
  destruct (conf_Exchange _ code) as [e | exchanged] eqn:Hx; [discriminate |].
  destruct (authn.oauth2_Extra exchanged "access_token") as [[a | ?] |] eqn:Ha;
    cbn [authn.as_string]; try discriminate.
  destruct (authn.oauth2_Extra exchanged "refresh_token") as [[r | ?] |] eqn:Hr;
    cbn [authn.as_string]; try discriminate.
  destruct (authn.oauth2_Extra exchanged "id_token") as [[rawIDToken | ?] |] eqn:Hi;
    cbn [authn.as_string]; try discriminate.
  destruct (jwt_ParseSigned a) as [e | accessToken] eqn:Hj; [discriminate |].
  destruct (UnsafeClaimsWithoutVerification accessToken) as [e | t] eqn:Hu;
    [discriminate |].
  destruct (verifier_Verify provider _ rawIDToken) as [e | idToken] eqn:Hv;
    [discriminate |].
  destruct (idToken_Claims idToken) as [e | m] eqn:Hc; [discriminate |].
  intros [= <- <- <- <-].
  exists provider.
  eexists (authn.Build_oauth2_Config Endpoint _ _ _ _ _).
  exists exchanged, rawIDToken, idToken, accessToken.
  split; [reflexivity |]. split; [reflexivity |]. split; [reflexivity |].
  split; [exact Hx |]. repeat split; assumption.
Qed.

(** When the provider's configuration cannot be fetched, each of the three
    methods fails, and the failure keeps its cause: unwrapping the error
    reaches the error of the fetch, and its text is the text of the cause
    under the context of each layer crossed. *)
Theorem provider_discovery_failure (o : authn.oidcImplementation)
    (code : string) (providerTokens : authn.ProviderToken) (cause : error) :
  oidc_NewProvider ("https://" +:+ authn.Domain o) = inl cause ->
  (exists err,
     authn.ExchangeAuthCodeForProviderTokens Provider Endpoint JSONWebToken IDToken
       oidc_NewProvider provider_Endpoint conf_Exchange jwt_ParseSigned
       UnsafeClaimsWithoutVerification verifier_Verify idToken_Claims o code
     = inl err
     /\ reaches err cause
     /\ Error err
        = ("client exchange code: get provider openid info: " +:+ Error cause)%string)
  /\ (exists err,
        authn.RefreshAccessToken Provider Endpoint TokenSource
          oidc_NewProvider provider_Endpoint conf_TokenSource tokenSource_Token
          o providerTokens
        = inl err
        /\ reaches err cause
        /\ Error err
           = ("ref token source: call idp with tokens: get provider openid info: "
              +:+ Error cause)%string)
  /\ (exists err,
        authn.GetUserInfo Provider Endpoint TokenSource ResponseBody
          oidc_NewProvider provider_Endpoint conf_TokenSource
          http_NewRequest client_Do json_Decode ErrForbidden o providerTokens
        = inl err
        /\ reaches err cause
        /\ Error err
           = ("info token source: call idp with tokens: get provider openid info: "
              +:+ Error cause)%string).
Proof.
  intros Hp.
  unfold authn.ExchangeAuthCodeForProviderTokens, authn.RefreshAccessToken,
    authn.GetUserInfo, authn.tokenSource, authn.clientConfig.
  rewrite Hp.
  split; [| split]; eexists; (split; [reflexivity |]); split.
  all: try (repeat apply reaches_wrap; apply reaches_here).
  all: unfold Errorf_w; cbn [Error]; rewrite ?append_empty_r, <- ?append_assoc;
    reflexivity.
Qed.

End OIDCFacts.

Lemma ExchangeAuthCodeForProviderTokens_verified_witness :
  exists exchanged rawIDToken idToken,
    authn.oauth2_Extra exchanged "id_token" = Some (JSONString rawIDToken)
    /\ (fun (_ : unit) (_ rawIDToken : string) => @inr error unit tt)
         tt (authn.ClientID sample_oidc) rawIDToken = inr idToken
    /\ (fun _ : unit => @inr error string "user@example.com"%string) idToken
       = inr "user@example.com"%string.
Proof.
  destruct (ExchangeAuthCodeForProviderTokens_verified unit unit unit unit
              (fun _ => inr tt) (fun _ => tt) (fun _ _ => inr sample_exchanged)
              (fun _ => inr tt) (fun _ => inr 5000)
              (fun _ _ _ => inr tt) (fun _ => inr "user@example.com"%string)
              sample_oidc "c0de" "acc" "ref" "user@example.com" 5000)
    as (provider & conf & exchanged & rawIDToken & idToken & accessToken
        & _ & _ & _ & _ & _ & _ & Hid & Hverify & Hclaims & _).
  - reflexivity.
  - destruct provider. exists exchanged, rawIDToken, idToken.
    split; [exact Hid | split; [exact Hverify | exact Hclaims]].
Defined.

Lemma provider_discovery_failure_witness :
  exists err,
    authn.RefreshAccessToken unit unit unit
      (fun _ => inl unreachable) (fun _ => tt) (fun _ _ => tt)
      (fun _ => inr sample_exchanged) sample_oidc sample_token
    = inl err
    /\ reaches err unreachable
    /\ Error err
       = "ref token source: call idp with tokens: get provider openid info: connection refused"%string.
Proof.
  destruct (provider_discovery_failure unit unit unit unit unit unit
              (fun _ => inl unreachable) (fun _ => tt) (fun _ _ => inr sample_exchanged)
              (fun _ _ => tt) (fun _ => inr sample_exchanged)
              (fun _ => inr tt) (fun _ => inr 5000)
              (fun _ _ _ => inr tt) (fun _ => inr "user@example.com"%string)
              (fun _ _ => None)
              (fun _ _ _ _ => inr {| authn.StatusCode := 200; authn.Body := tt |})
              (fun _ => inr {| authn.Email := "user@example.com"; authn.Groups := [] |})
              ErrUnauthorized
              sample_oidc "c0de" sample_token unreachable)
    as (_ & (err & Hrun & Hreach & Hmsg) & _).
  - reflexivity.
  - exists err. split; [exact Hrun | split; [exact Hreach | exact Hmsg]].
Defined.

(** ** Cookies *)

(** The two cookies of a session: both are restricted to the same site,
    sent over HTTPS only and hidden from scripts, both have the same age,
    and the age is never the zero that means that a cookie does not expire:
    a session that has no whole second left gives cookies that are deleted
    at once. *)
Theorem setAuthCookie_never_without_expiry (int_Seconds : Duration -> Z) (env : Env)
    (token : string) (sessionDuration : Duration) (current : registry.SameSite) :
  exists maxAge,
    registry.cookies_set current
      (registry.setAuthCookie int_Seconds env token sessionDuration)
    = [ ("token"%string, token, maxAge, registry.SameSiteStrictMode, true, true);
        ("login"%string, "1"%string, maxAge, registry.SameSiteStrictMode, true, true) ]
    /\ maxAge <> 0
    /\ (maxAge = int_Seconds (Now env 0 + sessionDuration - Now env 1)
        \/ (int_Seconds (Now env 0 + sessionDuration - Now env 1) = 0 /\ maxAge = -1)).
Proof.
  unfold registry.setAuthCookie, registry.Time_Until, Time_Add,
    registry.CookieMaxAgeNoExpiry, registry.CookieMaxAgeDeleteImmediately.
  destruct (Z.eqb_spec (int_Seconds (Now env 0 + sessionDuration - Now env 1)) 0)
    as [Hz | Hnz].
  - exists (-1). split; [reflexivity |]. split; [lia | right; split; [exact Hz | reflexivity]].
  - eexists. split; [reflexivity |]. split; [exact Hnz | now left].
Qed.

(** ** Logging out *)

Section LogoutFacts.
Variable ApiClient : Type.
Variable readRegistryConfig : string -> error + option cmd.RegistryConfig.
Variable NewApiClient : string -> bool -> error + ApiClient.
Variable os_UserHomeDir : error + string.
Variable filepath_Join : list string -> string.

(** Logging out fails only when the configuration cannot be read, and then
    nothing is done; without a configuration nothing is done either.
    Otherwise it succeeds whatever else fails, and the last thing it does is
    to remove the configuration of the host; when the registry is not the
    current one, nothing else is done but sending the logout request, and
    no file is removed. *)
Theorem logout_outcomes (registry : string) :
  match readRegistryConfig registry with
  | inl err =>
      cmd.logout ApiClient readRegistryConfig NewApiClient os_UserHomeDir filepath_Join
        registry = (Some err, [])
  | inr None =>
      cmd.logout ApiClient readRegistryConfig NewApiClient os_UserHomeDir filepath_Join
        registry = (None, [])
  | inr (Some config) =>
      exists before,
        cmd.logout ApiClient readRegistryConfig NewApiClient os_UserHomeDir filepath_Join
          registry
        = (None, before ++ [cmd.removeRegistryConfig ApiClient (cmd.Host config)])
        /\ (cmd.Current config = false ->
            forall e, In e before ->
              exists client, e = cmd.AuthApi_Logout ApiClient client (cmd.Token config))
        /\ (forall client,
              NewApiClient (cmd.Host config) (cmd.SkipTLSVerify config) = inr client ->
              exists rest,
                before = cmd.AuthApi_Logout ApiClient client (cmd.Token config) :: rest)
        /\ (forall path,
              In (cmd.os_RemoveAll ApiClient path) before ->
              cmd.Current config = true
              /\ exists homeDir, os_UserHomeDir = inr homeDir
                   /\ path = filepath_Join [homeDir; ".infra"; "cache"]%string)
  end.
Proof.
  unfold cmd.logout.
  destruct (readRegistryConfig registry) as [err | [config |]]; try reflexivity.
  eexists. split; [rewrite app_assoc; reflexivity |]. split; [| split].
  - intros Hcur e He. rewrite Hcur, app_nil_r in He.
    destruct (NewApiClient _ _) as [e' | client]; [destruct He |].
    destruct He as [<- | []]. now exists client.
  - intros client ->. eexists. reflexivity.
  - intros path Hin. apply in_app_or in Hin as [Hin | Hin].
    + destruct (NewApiClient _ _) as [e' | client]; [destruct Hin |].
      destruct Hin as [Heq | []]. discriminate.
    + destruct (cmd.Current config); [| destruct Hin]. split; [reflexivity |].
      destruct Hin as [Heq | Hin]; [discriminate |].
      destruct os_UserHomeDir as [e' | homeDir]; [destruct Hin |].
      destruct Hin as [[= <-] | [Heq | []]]; [| discriminate].
      now exists homeDir.
Qed.

End LogoutFacts.
